(** * Ball Barrier: the physics and game-state core of [main.ts]

    A shallow embedding of the class [BallBarrierGame] (src/app/src/main.ts;
    src/unnamed/part_001 is the same program in plain JavaScript) and of the
    few [THREE.Vector3] methods it calls, followed by the properties of the
    collision geometry, the tick and the session controller.

    Numbers.  A JavaScript number is modelled as a real number or one of the
    special values [NaN], [+Infinity], [-Infinity]; the arithmetic on finite
    values is exact (rounding, overflow and the sign of zero are not
    modelled).  The special values are kept because the program divides
    ([pointToLineDistance]) and because comparisons with [NaN] are false.

    Environment.  [Math.random()] and [performance.now()] are inputs of the
    functions that call them; pointer positions are taken after
    [getPointerPosition], as world coordinates.  Meshes, materials, the scene
    graph and the DOM are left out: of a ball's mesh only its [position] is
    kept. *)

From stdpp Require Import base list.
From Stdlib Require Import Reals Lra.

Open Scope R_scope.

(** ** JavaScript numbers *)

Inductive num : Type :=
| Fin (r : R)
| PInf
| NInf
| NaN.

Definition Rltb (a b : R) : bool := if Rlt_dec a b then true else false.
Definition Reqb (a b : R) : bool := if Req_dec_T a b then true else false.

Definition isFinite (a : num) : bool :=
  match a with Fin _ => true | _ => false end.

Definition nneg (a : num) : num :=
  match a with
  | Fin r => Fin (- r)
  | PInf => NInf
  | NInf => PInf
  | NaN => NaN
  end.

Definition nadd (a b : num) : num :=
  match a, b with
  | Fin r, Fin s => Fin (r + s)
  | NaN, _ | _, NaN => NaN
  | PInf, NInf | NInf, PInf => NaN
  | PInf, _ | _, PInf => PInf
  | NInf, _ | _, NInf => NInf
  end.

Definition nsub (a b : num) : num := nadd a (nneg b).

(** [r * Infinity] ([positive = true]) or [r * -Infinity]. *)
Definition scaleInf (positive : bool) (r : R) : num :=
  if Rltb 0 r then (if positive then PInf else NInf)
  else if Rltb r 0 then (if positive then NInf else PInf)
  else NaN.

Definition nmul (a b : num) : num :=
  match a, b with
  | Fin r, Fin s => Fin (r * s)
  | NaN, _ | _, NaN => NaN
  | Fin r, PInf | PInf, Fin r => scaleInf true r
  | Fin r, NInf | NInf, Fin r => scaleInf false r
  | PInf, PInf | NInf, NInf => PInf
  | PInf, NInf | NInf, PInf => NInf
  end.

(** Division: [0/0] is [NaN], [r/0] is an infinity of the sign of [r]. *)
Definition ndiv (a b : num) : num :=
  match a, b with
  | Fin r, Fin s => if Reqb s 0 then scaleInf true r else Fin (r / s)
  | NaN, _ | _, NaN => NaN
  | Fin _, _ => Fin 0
  | PInf, Fin s => if Rltb s 0 then NInf else PInf
  | NInf, Fin s => if Rltb s 0 then PInf else NInf
  | _, _ => NaN
  end.

Definition nlt (a b : num) : bool :=
  match a, b with
  | Fin r, Fin s => Rltb r s
  | NaN, _ | _, NaN => false
  | _, NInf => false
  | NInf, _ => true
  | PInf, _ => false
  | Fin _, PInf => true
  end.

Definition ngt (a b : num) : bool := nlt b a.

(** [a <= b]: as in JavaScript, false as soon as one side is [NaN]. *)
Definition nle (a b : num) : bool :=
  match a, b with
  | NaN, _ | _, NaN => false
  | _, _ => negb (nlt b a)
  end.

Definition Math_abs (a : num) : num :=
  match a with
  | Fin r => Fin (Rabs r)
  | PInf | NInf => PInf
  | NaN => NaN
  end.

Definition Math_max (a b : num) : num :=
  match a, b with
  | Fin r, Fin s => Fin (Rmax r s)
  | NaN, _ | _, NaN => NaN
  | PInf, _ | _, PInf => PInf
  | NInf, c | c, NInf => c
  end.

Definition Math_min (a b : num) : num :=
  match a, b with
  | Fin r, Fin s => Fin (Rmin r s)
  | NaN, _ | _, NaN => NaN
  | NInf, _ | _, NInf => NInf
  | PInf, c | c, PInf => c
  end.

Definition Math_sqrt (a : num) : num :=
  match a with
  | Fin r => if Rltb r 0 then NaN else Fin (sqrt r)
  | PInf => PInf
  | NInf | NaN => NaN
  end.

Definition Math_cos (a : num) : num :=
  match a with Fin r => Fin (cos r) | _ => NaN end.

Definition Math_sin (a : num) : num :=
  match a with Fin r => Fin (sin r) | _ => NaN end.

Definition Math_PI : num := Fin PI.

(** Truthiness of a number: [0] and [NaN] are falsy. *)
Definition truthy (a : num) : bool :=
  match a with
  | Fin r => negb (Reqb r 0)
  | PInf | NInf => true
  | NaN => false
  end.

(** [a || b] on numbers. *)
Definition orElse (a b : num) : num := if truthy a then a else b.

Declare Scope num_scope.
Delimit Scope num_scope with num.
Bind Scope num_scope with num.
Infix "+" := nadd : num_scope.
Infix "-" := nsub : num_scope.
Infix "*" := nmul : num_scope.
Infix "/" := ndiv : num_scope.
Infix "<?" := nlt : num_scope.
Infix ">?" := ngt : num_scope.

(** ** The methods of [THREE.Vector3] used by the game

    three.js is a dependency of the program, not part of it.  The methods
    are embedded from the library's [Vector3.js]; every one of them is a
    one-line formula on the components.  Two facts matter below:
    [divideScalar(s)] is [multiplyScalar(1 / s)], and [normalize()] is
    [divideScalar(this.length() || 1)], so that the zero vector is left
    unchanged instead of being divided by zero.  The methods mutate their
    receiver; the program calls them on fresh [clone()]s or on temporaries it
    does not read again, so that they are functions here. *)

Module THREE.

Local Open Scope num_scope.

Record Vector3 : Type := vec3 { x : num; y : num; z : num }.

Definition add (a b : Vector3) : Vector3 :=
  vec3 (x a + x b) (y a + y b) (z a + z b).

Definition sub (a b : Vector3) : Vector3 :=
  vec3 (x a - x b) (y a - y b) (z a - z b).

Definition multiplyScalar (a : Vector3) (s : num) : Vector3 :=
  vec3 (x a * s) (y a * s) (z a * s).

Definition divideScalar (a : Vector3) (s : num) : Vector3 :=
  multiplyScalar a (Fin 1 / s).

Definition dot (a b : Vector3) : num :=
  x a * x b + y a * y b + z a * z b.

Definition lengthSq (a : Vector3) : num :=
  x a * x a + y a * y a + z a * z a.

Definition length (a : Vector3) : num :=
  Math_sqrt (x a * x a + y a * y a + z a * z a).

Definition normalize (a : Vector3) : Vector3 :=
  divideScalar a (orElse (length a) (Fin 1)).

Definition distanceToSquared (a b : Vector3) : num :=
  let dx := x a - x b in
  let dy := y a - y b in
  let dz := z a - z b in
  dx * dx + dy * dy + dz * dz.

Definition distanceTo (a b : Vector3) : num :=
  Math_sqrt (distanceToSquared a b).

End THREE.

Abbreviation Vector3 := THREE.Vector3.
Abbreviation vec3 := THREE.vec3.

(** ** The data of the game *)

Record Ball : Type := mkBall {
  position : Vector3;   (* [mesh.position] *)
  velocity : Vector3;
  radius : num
}.

(** [end] is a keyword: the field is [end_]. *)
Record LineSegment : Type := mkSegment {
  start : Vector3;
  end_ : Vector3
}.

Record Line : Type := mkLine {
  segments : list LineSegment
}.

(** The fields of [BallBarrierGame] that carry game state.  [worldSize] and
    [boundarySize] are assigned once, by the initialiser and the constructor:
    they are constants below. *)
Record Game : Type := mkGame {
  balls : list Ball;
  lines : list Line;
  gameStarted : bool;
  gameTime : num;
  lastTime : num;
  isDrawing : bool;
  currentLinePoints : list Vector3;
  ballSpeed : num;
  ballCount : num;
  nextBallSpawn : num
}.

Definition worldSize : num := Fin 10.
Definition boundarySize : num := (worldSize * Fin 0.9)%num.

(** The state left by the field initialisers and the constructor. *)
Definition newGame : Game :=
  {| balls := []; lines := []; gameStarted := false; gameTime := Fin 0;
     lastTime := Fin 0; isDrawing := false; currentLinePoints := [];
     ballSpeed := Fin 2; ballCount := Fin 1; nextBallSpawn := Fin 5 |}.

(** Field assignments. *)
Definition set_balls (bs : list Ball) (g : Game) : Game :=
  mkGame bs (lines g) (gameStarted g) (gameTime g) (lastTime g) (isDrawing g)
    (currentLinePoints g) (ballSpeed g) (ballCount g) (nextBallSpawn g).
Definition set_lines (ls : list Line) (g : Game) : Game :=
  mkGame (balls g) ls (gameStarted g) (gameTime g) (lastTime g) (isDrawing g)
    (currentLinePoints g) (ballSpeed g) (ballCount g) (nextBallSpawn g).
Definition set_gameStarted (b : bool) (g : Game) : Game :=
  mkGame (balls g) (lines g) b (gameTime g) (lastTime g) (isDrawing g)
    (currentLinePoints g) (ballSpeed g) (ballCount g) (nextBallSpawn g).
Definition set_gameTime (t : num) (g : Game) : Game :=
  mkGame (balls g) (lines g) (gameStarted g) t (lastTime g) (isDrawing g)
    (currentLinePoints g) (ballSpeed g) (ballCount g) (nextBallSpawn g).
Definition set_lastTime (t : num) (g : Game) : Game :=
  mkGame (balls g) (lines g) (gameStarted g) (gameTime g) t (isDrawing g)
    (currentLinePoints g) (ballSpeed g) (ballCount g) (nextBallSpawn g).
Definition set_isDrawing (b : bool) (g : Game) : Game :=
  mkGame (balls g) (lines g) (gameStarted g) (gameTime g) (lastTime g) b
    (currentLinePoints g) (ballSpeed g) (ballCount g) (nextBallSpawn g).
Definition set_currentLinePoints (ps : list Vector3) (g : Game) : Game :=
  mkGame (balls g) (lines g) (gameStarted g) (gameTime g) (lastTime g)
    (isDrawing g) ps (ballSpeed g) (ballCount g) (nextBallSpawn g).
Definition set_ballSpeed (v : num) (g : Game) : Game :=
  mkGame (balls g) (lines g) (gameStarted g) (gameTime g) (lastTime g)
    (isDrawing g) (currentLinePoints g) v (ballCount g) (nextBallSpawn g).
Definition set_ballCount (n : num) (g : Game) : Game :=
  mkGame (balls g) (lines g) (gameStarted g) (gameTime g) (lastTime g)
    (isDrawing g) (currentLinePoints g) (ballSpeed g) n (nextBallSpawn g).
Definition set_nextBallSpawn (t : num) (g : Game) : Game :=
  mkGame (balls g) (lines g) (gameStarted g) (gameTime g) (lastTime g)
    (isDrawing g) (currentLinePoints g) (ballSpeed g) (ballCount g) t.

Definition set_position (p : Vector3) (b : Ball) : Ball :=
  mkBall p (velocity b) (radius b).
Definition set_velocity (v : Vector3) (b : Ball) : Ball :=
  mkBall (position b) v (radius b).

(** ** Geometry and collision response *)

Section Collision.

Local Open Scope num_scope.

(** [pointToLineDistance]: distance from [point] to the segment, the
    projection parameter [t] clamped by [Math.max(0, Math.min(1, _))].
    [segmentProjection] is its local constant [projection]. *)
Definition segmentProjection (point lineStart lineEnd : Vector3) : Vector3 :=
  let line := THREE.sub lineEnd lineStart in
  let pointToStart := THREE.sub point lineStart in
  let t := Math_max (Fin 0)
             (Math_min (Fin 1)
                (THREE.dot pointToStart line / THREE.lengthSq line)) in
  THREE.add lineStart (THREE.multiplyScalar line t).

Definition pointToLineDistance (point lineStart lineEnd : Vector3) : num :=
  let projection := segmentProjection point lineStart lineEnd in
  THREE.distanceTo point projection.

(** The body of the inner loop of [checkBallLineCollision], the response of
    one ball to one segment, with its local constants as functions of what
    they are computed from. *)
Definition lineDirection (segment : LineSegment) : Vector3 :=
  THREE.normalize (THREE.sub (end_ segment) (start segment)).

Definition normal (segment : LineSegment) : Vector3 :=
  vec3 (nneg (THREE.z (lineDirection segment))) (Fin 0)
       (THREE.x (lineDirection segment)).

(** [dot = velocity.dot(normal); velocity.sub(normal.multiplyScalar(2 * dot))] *)
Definition reflect (v n : Vector3) : Vector3 :=
  let dot := THREE.dot v n in
  THREE.sub v (THREE.multiplyScalar n (Fin 2 * dot)).

Definition closestPoint (point : Vector3) (segment : LineSegment) : Vector3 :=
  let toBall := THREE.sub point (start segment) in
  let projection := THREE.dot toBall (lineDirection segment) in
  THREE.add (start segment)
    (THREE.multiplyScalar (lineDirection segment) projection).

Definition pushDirection (point : Vector3) (segment : LineSegment) : Vector3 :=
  THREE.normalize (THREE.sub point (closestPoint point segment)).

Definition collideSegment (ball : Ball) (segment : LineSegment) : Ball :=
  if pointToLineDistance (position ball) (start segment) (end_ segment)
       <? radius ball
  then
    let velocity' := reflect (velocity ball) (normal segment) in
    let position' :=
      THREE.add (position ball)
        (THREE.multiplyScalar (pushDirection (position ball) segment)
           (radius ball
            - pointToLineDistance (position ball) (start segment)
                (end_ segment)
            + Fin 0.01)) in
    mkBall position' velocity' (radius ball)
  else ball.

(** [checkBallLineCollision]: every segment of every line, in order, each
    acting on the ball as the previous ones left it. *)
Definition checkBallLineCollision (ls : list Line) (ball : Ball) : Ball :=
  fold_left (fun b line => fold_left collideSegment (segments line) b)
    ls ball.

End Collision.

(** ** The session controller *)

Section Controller.

Local Open Scope num_scope.

(** [gameOver]: the DOM updates are left out. *)
Definition gameOver (g : Game) : Game := set_gameStarted false g.

(** The test of [checkLineOutOfBounds] on one segment. *)
Definition segmentOutOfBounds (segment : LineSegment) : bool :=
  (Math_abs (THREE.x (start segment)) >? boundarySize / Fin 2)
  || (Math_abs (THREE.z (start segment)) >? boundarySize / Fin 2)
  || (Math_abs (THREE.x (end_ segment)) >? boundarySize / Fin 2)
  || (Math_abs (THREE.z (end_ segment)) >? boundarySize / Fin 2).

(** [checkLineOutOfBounds]: the first segment out of bounds, of any line of
    the game, ends the game and the search. *)
Definition checkLineOutOfBounds (g : Game) : Game :=
  if existsb (fun line => existsb segmentOutOfBounds (segments line))
       (lines g)
  then gameOver g
  else g.

(** The segments of [finalizeLine]: [points[i]] to [points[i + 1]] for
    [i < points.length - 1]. *)
Fixpoint lineSegments (points : list Vector3) : list LineSegment :=
  match points with
  | p :: (q :: _) as rest => mkSegment p q :: lineSegments rest
  | _ => []
  end.

Definition finalizeLine (g : Game) : Game :=
  if (List.length (currentLinePoints g) <? 2)%nat then g
  else
    checkLineOutOfBounds
      (set_lines (lines g ++ [mkLine (lineSegments (currentLinePoints g))]) g).

(** The pointer handlers take the world coordinates that
    [getPointerPosition] returns. *)
Definition onPointerDown (px pz : num) (g : Game) : Game :=
  if negb (gameStarted g) then g
  else
    set_currentLinePoints [vec3 px (Fin 0.1) pz] (set_isDrawing true g).

(** With an empty buffer [lastPoint] is [undefined] and the handler throws
    before it changes anything. *)
Definition onPointerMove (px pz : num) (g : Game) : Game :=
  if negb (gameStarted g) || negb (isDrawing g) then g
  else
    let newPoint := vec3 px (Fin 0.1) pz in
    match last (currentLinePoints g) with
    | None => g
    | Some lastPoint =>
        if THREE.distanceTo lastPoint newPoint >? Fin 0.1
        then set_currentLinePoints (currentLinePoints g ++ [newPoint]) g
        else g
    end.

Definition onPointerUp (g : Game) : Game :=
  if negb (gameStarted g) || negb (isDrawing g) then g
  else
    let g1 := set_isDrawing false g in
    let g2 :=
      if (1 <? List.length (currentLinePoints g1))%nat
      then finalizeLine g1 else g1 in
    set_currentLinePoints [] g2.

(** [spawnBall]; [rnd] is the value of the [Math.random()] that gives the
    angle. *)
Definition spawnBall (rnd : R) (g : Game) : Game :=
  let angle := Fin rnd * Math_PI * Fin 2 in
  let velocity :=
    vec3 (Math_cos angle * ballSpeed g) (Fin 0)
         (Math_sin angle * ballSpeed g) in
  set_balls
    (balls g ++ [mkBall (vec3 (Fin 0) (Fin 0.15) (Fin 0)) velocity (Fin 0.15)])
    g.

(** The boundary test of [updateBalls]. *)
Definition ballOutOfBounds (ball : Ball) : bool :=
  (Math_abs (THREE.x (position ball)) >? boundarySize / Fin 2 - radius ball)
  || (Math_abs (THREE.z (position ball)) >? boundarySize / Fin 2 - radius ball).

Definition moveBall (deltaTime : num) (ball : Ball) : Ball :=
  set_position
    (THREE.add (position ball)
       (THREE.multiplyScalar (velocity ball) deltaTime))
    ball.

(** The loop of [updateBalls] with [n] iterations left: the next ball is
    [balls[n - 1]].  The loop starts at [balls.length - 1] and the list keeps
    its length, so the index is always in range; the branch [None] is there
    for totality. *)
Fixpoint updateBallsFrom (n : nat) (deltaTime : num) (g : Game) : Game :=
  match n with
  | O => g
  | S i =>
      match balls g !! i with
      | None => g
      | Some ball =>
          let moved := moveBall deltaTime ball in
          if ballOutOfBounds moved
          then gameOver (set_balls (<[i := moved]> (balls g)) g)
          else
            updateBallsFrom i deltaTime
              (set_balls
                 (<[i := checkBallLineCollision (lines g) moved]> (balls g))
                 g)
      end
  end.

Definition updateBalls (deltaTime : num) (g : Game) : Game :=
  updateBallsFrom (List.length (balls g)) deltaTime g.

(** [gameLoop], cut where the claims look at it: the clock, the difficulty
    ramp, the spawn. [now] is the value of [performance.now()]. *)
Definition advanceClock (now : R) (g : Game) : num * Game :=
  let deltaTime := (Fin now - lastTime g) / Fin 1000 in
  let g1 := set_lastTime (Fin now) g in
  (deltaTime, set_gameTime (gameTime g1 + deltaTime) g1).

Definition rampDifficulty (g : Game) : Game :=
  set_ballSpeed (Fin 2 + gameTime g * Fin 0.1) g.

Definition spawnIncrement (t : num) : num :=
  Math_max (Fin 3) (Fin 8 - t * Fin 0.1).

Definition spawnIfDue (rnd : R) (g : Game) : Game :=
  if gameTime g >? nextBallSpawn g
  then
    let g1 := spawnBall rnd g in
    set_nextBallSpawn (nextBallSpawn g1 + spawnIncrement (gameTime g1)) g1
  else g.

(** One call of [gameLoop]; rendering and the request for the next frame
    are left out. *)
Definition gameLoop (now rnd : R) (g : Game) : Game :=
  if negb (gameStarted g) then g
  else
    let '(deltaTime, g1) := advanceClock now g in
    updateBalls deltaTime (spawnIfDue rnd (rampDifficulty g1)).

(** The assignments of [startGame] up to the first spawn and the reading of
    the clock. *)
Definition resetGame (rnd0 now0 : R) (g : Game) : Game :=
  let g1 := set_gameStarted true g in
  let g2 := set_gameTime (Fin 0) g1 in
  let g3 := set_ballSpeed (Fin 2) g2 in
  let g4 := set_ballCount (Fin 1) g3 in
  let g5 := set_nextBallSpawn (Fin 5) g4 in
  let g6 := set_lines [] (set_balls [] g5) in
  set_lastTime (Fin now0) (spawnBall rnd0 g6).

(** [startGame] ends with a call of [gameLoop]: the first tick runs inside
    the command, with its own reading [now1] of the clock. *)
Definition startGame (rnd0 now0 now1 rnd1 : R) (g : Game) : Game :=
  gameLoop now1 rnd1 (resetGame rnd0 now0 g).

Definition restartGame (rnd0 now0 now1 rnd1 : R) (g : Game) : Game :=
  startGame rnd0 now0 now1 rnd1 g.

End Controller.

(** ** Runs of the game *)

Inductive Event : Type :=
| Start (rnd0 now0 now1 rnd1 : R)
| Restart (rnd0 now0 now1 rnd1 : R)
| Frame (now rnd : R)
| PointerDown (px pz : num)
| PointerMove (px pz : num)
| PointerUp.

Definition handle (e : Event) (g : Game) : Game :=
  match e with
  | Start rnd0 now0 now1 rnd1 => startGame rnd0 now0 now1 rnd1 g
  | Restart rnd0 now0 now1 rnd1 => restartGame rnd0 now0 now1 rnd1 g
  | Frame now rnd => gameLoop now rnd g
  | PointerDown px pz => onPointerDown px pz g
  | PointerMove px pz => onPointerMove px pz g
  | PointerUp => onPointerUp g
  end.

(** The states of the game after a finite sequence of events. *)
Inductive Reachable : Game -> Prop :=
| reach_new : Reachable newGame
| reach_step e g : Reachable g -> Reachable (handle e g).

Fixpoint run (events : list Event) (g : Game) : Game :=
  match events with
  | [] => g
  | e :: rest => run rest (handle e g)
  end.

(** ** Vocabulary of the statements *)

(** *** Vectors of real numbers

    The finite values of [Vector3], with the operations that the methods of
    [THREE.Vector3] compute on them. *)

Record R3 : Type := r3 { cx : R; cy : R; cz : R }.

Definition inj (u : R3) : Vector3 :=
  vec3 (Fin (cx u)) (Fin (cy u)) (Fin (cz u)).

Definition R3plus (u v : R3) : R3 :=
  r3 (cx u + cx v) (cy u + cy v) (cz u + cz v).
Definition R3minus (u v : R3) : R3 :=
  r3 (cx u - cx v) (cy u - cy v) (cz u - cz v).
Definition R3scale (u : R3) (k : R) : R3 :=
  r3 (cx u * k) (cy u * k) (cz u * k).
Definition R3dot (u v : R3) : R :=
  cx u * cx v + cy u * cy v + cz u * cz v.
Definition R3norm (u : R3) : R := sqrt (R3dot u u).

(** [normalize] leaves the zero vector alone. *)
Definition R3normalize (u : R3) : R3 :=
  R3scale u (1 / (if Reqb (R3norm u) 0 then 1 else R3norm u)).

Definition clamp01 (t : R) : R := Rmax 0 (Rmin 1 t).

(** The parameter of the orthogonal projection of [p] on the line through
    [a] and [b], the projection on the segment (parameter clamped to
    [0, 1]) and the Euclidean distance from [p] to it. *)
Definition R3parameter (p a b : R3) : R :=
  R3dot (R3minus p a) (R3minus b a) / R3dot (R3minus b a) (R3minus b a).

Definition R3projection (p a b : R3) : R3 :=
  R3plus a (R3scale (R3minus b a) (clamp01 (R3parameter p a b))).

Definition R3pointToLine (p a b : R3) : R :=
  R3norm (R3minus p (R3projection p a b)).

(** What the collision response computes on finite values. *)
Definition R3normal (a b : R3) : R3 :=
  r3 (- cz (R3normalize (R3minus b a))) 0 (cx (R3normalize (R3minus b a))).

Definition R3reflect (v n : R3) : R3 :=
  R3minus v (R3scale n (2 * R3dot v n)).

Definition R3closestPoint (p a b : R3) : R3 :=
  R3plus a
    (R3scale (R3normalize (R3minus b a))
       (R3dot (R3minus p a) (R3normalize (R3minus b a)))).

Definition R3pushed (p a b : R3) (r : R) : R3 :=
  R3plus p
    (R3scale (R3normalize (R3minus p (R3closestPoint p a b)))
       (r - R3pointToLine p a b + 0.01)).

(** *** The tick *)

(** A ball that the boundary test lets through after its move, and a whole
    iteration of the loop on such a ball. *)
Definition staysInside (deltaTime : num) (ball : Ball) : bool :=
  negb (ballOutOfBounds (moveBall deltaTime ball)).

Definition iteration (ls : list Line) (deltaTime : num) (ball : Ball) : Ball :=
  checkBallLineCollision ls (moveBall deltaTime ball).

(** The list that [updateBalls] leaves, and whether it ran to the end: the
    loop goes from the last ball to the first and stops at the first ball
    that the boundary test catches. *)
Fixpoint processed (ls : list Line) (deltaTime : num) (bs : list Ball)
  : list Ball * bool :=
  match bs with
  | [] => ([], true)
  | b :: rest =>
      let '(rest', ok) := processed ls deltaTime rest in
      if ok
      then if staysInside deltaTime b
           then (iteration ls deltaTime b :: rest', true)
           else (moveBall deltaTime b :: rest', false)
      else (b :: rest', false)
  end.

(** The clock after [advanceClock] and the state in which [gameLoop] calls
    [updateBalls]. *)
Definition deltaTimeAt (now : R) (g : Game) : num := (advanceClock now g).1.

Definition beforeUpdate (now rnd : R) (g : Game) : Game :=
  spawnIfDue rnd (rampDifficulty (advanceClock now g).2).

(** *** Barriers and the boundary *)

Definition linesOutOfBounds (ls : list Line) : bool :=
  existsb (fun line => existsb segmentOutOfBounds (segments line)) ls.

Definition halfBoundary : num := (boundarySize / Fin 2)%num.

Definition pointInBounds (p : Vector3) : Prop :=
  nle (Math_abs (THREE.x p)) halfBoundary = true
  /\ nle (Math_abs (THREE.z p)) halfBoundary = true.

Definition pointOutOfBounds (p : Vector3) : Prop :=
  ngt (Math_abs (THREE.x p)) halfBoundary = true
  \/ ngt (Math_abs (THREE.z p)) halfBoundary = true.

(** *** The session *)

(** The session state of the specification:
    started, elapsed time, speed base, next spawn threshold, balls,
    barriers. *)
Definition session (g : Game)
  : bool * num * num * num * list Ball * list Line :=
  (gameStarted g, gameTime g, ballSpeed g, nextBallSpawn g, balls g, lines g).

(** The ball of the specification's spawn rule: at the origin of the plane,
    with velocity [(cos θ, sin θ) * (2 + elapsedTime * 0.1)]. *)
Definition spawned (rnd : R) (elapsedTime : num) : Ball :=
  let angle := (Fin rnd * Math_PI * Fin 2)%num in
  let speed := (Fin 2 + elapsedTime * Fin 0.1)%num in
  mkBall (vec3 (Fin 0) (Fin 0.15) (Fin 0))
         (vec3 (Math_cos angle * speed)%num (Fin 0) (Math_sin angle * speed)%num)
         (Fin 0.15).

(** *** Sessions and positions used as examples *)

Definition floorSegment : LineSegment :=
  mkSegment (vec3 (Fin 0) (Fin 0.1) (Fin 0)) (vec3 (Fin 1) (Fin 0.1) (Fin 0)).


Definition ballOnTheLine : Ball :=
  mkBall (vec3 (Fin 0.5) (Fin 0.1) (Fin 0)) (vec3 (Fin 1.2) (Fin 0) (Fin 1.6))
    (Fin 0.15).

Definition freshGame : Game := resetGame 0 1000 newGame.

(** The first ball of a session. *)
Definition firstBall (rnd0 : R) : Ball :=
  mkBall (inj (r3 0 0.15 0))
    (inj (r3 (cos (rnd0 * PI * 2) * 2) 0 (sin (rnd0 * PI * 2) * 2))) (Fin 0.15).

(** Game over after a first session, and the clock readings of a restart that
    takes one millisecond between the reset and the first tick. *)
Definition lostGame : Game := gameOver (resetGame 0 1000 newGame).

(** A session in which the player holds the pointer down after one move. *)
Definition drawingGame : Game :=
  run [Start 0 1000 1000 0; PointerDown (Fin 0) (Fin 0); PointerMove (Fin 1) (Fin 0)]
    newGame.

(** A session with one barrier close to the right-hand boundary, drawn while
    the first ball heads for it. *)
Definition wallSegment : LineSegment :=
  mkSegment (vec3 (Fin 4.22) (Fin 0.1) (Fin (-1))) (vec3 (Fin 4.22) (Fin 0.1) (Fin 1)).

Definition guardedGame : Game :=
  run [Start 0 1000 1000 0; PointerDown (Fin 4.22) (Fin (-1));
       PointerMove (Fin 4.22) (Fin 1); PointerUp] newGame.

(** The ball of [guardedGame] after the frame at 3170 ms: where the push
    leaves it, and its reflected velocity. *)
Definition pushedBall : Ball :=
  mkBall (inj (r3 (4.34 + 0.12 * (1 / 0.13) * 0.03) (0.15 + 0.05 * (1 / 0.13) * 0.03) 0))
    (inj (r3 (-2) 0 0)) (Fin 0.15).

(** A segment as the pointer handlers make them: both ends at height 0.1,
    more than 0.1 apart. *)
Definition segmentDrawn (s : LineSegment) : Prop :=
  THREE.y (start s) = Fin 0.1
  /\ THREE.y (end_ s) = Fin 0.1
  /\ ngt (THREE.distanceTo (start s) (end_ s)) (Fin 0.1) = true.

Definition drawnInvariant (g : Game) : Prop :=
  Forall (fun p => THREE.y p = Fin 0.1) (currentLinePoints g)
  /\ Forall segmentDrawn (lineSegments (currentLinePoints g))
  /\ Forall (fun line => Forall segmentDrawn (segments line)) (lines g).

(** * Properties *)

(** ** Numbers and vectors *)

Lemma Rltb_true_iff (a b : R) : Rltb a b = true <-> a < b.
Proof. unfold Rltb. destruct (Rlt_dec a b); split; intros; try done. Qed.

Lemma Rltb_false_iff (a b : R) : Rltb a b = false <-> b <= a.
Proof. unfold Rltb. destruct (Rlt_dec a b); split; intros; try done; lra. Qed.

Lemma Reqb_true_iff (a b : R) : Reqb a b = true <-> a = b.
Proof. unfold Reqb. destruct (Req_dec_T a b); split; intros; done. Qed.

Lemma Reqb_false_iff (a b : R) : Reqb a b = false <-> a <> b.
Proof. unfold Reqb. destruct (Req_dec_T a b); split; intros; done. Qed.

Lemma R3dot_self_nonneg u : 0 <= R3dot u u.
Proof. unfold R3dot. nra. Qed.

Lemma R3dot_self_zero u : R3dot u u = 0 -> u = r3 0 0 0.
Proof. destruct u as [a b c]; unfold R3dot; simpl; intros H.
  assert (a = 0) by nra. assert (b = 0) by nra. assert (c = 0) by nra. by subst. Qed.

Lemma add_inj u v : THREE.add (inj u) (inj v) = inj (R3plus u v).
Proof. reflexivity. Qed.
Lemma sub_inj u v : THREE.sub (inj u) (inj v) = inj (R3minus u v).
Proof. unfold THREE.sub, inj, R3minus; simpl. reflexivity. Qed.
Lemma multiplyScalar_inj u k : THREE.multiplyScalar (inj u) (Fin k) = inj (R3scale u k).
Proof. reflexivity. Qed.
Lemma dot_inj u v : THREE.dot (inj u) (inj v) = Fin (R3dot u v).
Proof. reflexivity. Qed.
Lemma lengthSq_inj u : THREE.lengthSq (inj u) = Fin (R3dot u u).
Proof. reflexivity. Qed.
Lemma Math_sqrt_nonneg r : 0 <= r -> Math_sqrt (Fin r) = Fin (sqrt r).
Proof. intros. simpl. by apply Rltb_false_iff in H as ->. Qed.
Lemma length_inj u : THREE.length (inj u) = Fin (R3norm u).
Proof.
  unfold THREE.length, inj. cbn [THREE.x THREE.y THREE.z nmul nadd].
  rewrite Math_sqrt_nonneg; [done|]. apply (R3dot_self_nonneg u).
Qed.
Lemma distanceTo_inj u v : THREE.distanceTo (inj u) (inj v) = Fin (R3norm (R3minus u v)).
Proof.
  unfold THREE.distanceTo, THREE.distanceToSquared, inj.
  cbn [THREE.x THREE.y THREE.z nmul nadd nsub nneg].
  rewrite Math_sqrt_nonneg; [done|].
  pose proof (Rle_0_sqr (cx u + - cx v)). pose proof (Rle_0_sqr (cy u + - cy v)).
  pose proof (Rle_0_sqr (cz u + - cz v)). unfold Rsqr in *. lra.
Qed.

Lemma ndiv_fin a b : b <> 0 -> ndiv (Fin a) (Fin b) = Fin (a / b).
Proof. intros H. unfold ndiv. by apply Reqb_false_iff in H as ->. Qed.

Lemma normalize_inj u : THREE.normalize (inj u) = inj (R3normalize u).
Proof.
  unfold THREE.normalize, THREE.divideScalar, R3normalize.
  rewrite length_inj. unfold orElse, truthy.
  destruct (Reqb (R3norm u) 0) eqn:E; cbn [negb].
  - rewrite ndiv_fin by lra. apply multiplyScalar_inj.
  - apply Reqb_false_iff in E. rewrite ndiv_fin by done. apply multiplyScalar_inj.
Qed.

Lemma R3minus_self_dot a b : R3dot (R3minus b a) (R3minus b a) = 0 <-> a = b.
Proof.
  split.
  - intros H. apply R3dot_self_zero in H. destruct a, b. unfold R3minus in H. simpl in H.
    injection H as ? ? ?. f_equal; lra.
  - intros ->. unfold R3dot, R3minus. simpl. ring.
Qed.

Lemma segmentProjection_inj p a b :
  a <> b ->
  segmentProjection (inj p) (inj a) (inj b) = inj (R3projection p a b).
Proof.
  intros H. unfold segmentProjection.
  rewrite !sub_inj, dot_inj, lengthSq_inj.
  rewrite ndiv_fin by (by rewrite R3minus_self_dot).
  cbn [Math_min Math_max]. rewrite multiplyScalar_inj, add_inj.
  reflexivity.
Qed.

Lemma pointToLineDistance_inj p a b :
  a <> b ->
  pointToLineDistance (inj p) (inj a) (inj b) = Fin (R3pointToLine p a b).
Proof.
  intros H. unfold pointToLineDistance.
  rewrite segmentProjection_inj by done. apply distanceTo_inj.
Qed.

Lemma pointToLineDistance_degenerate p a :
  pointToLineDistance (inj p) (inj a) (inj a) = NaN.
Proof.
  unfold pointToLineDistance, segmentProjection.
  rewrite !sub_inj, dot_inj, lengthSq_inj.
  assert (E : R3dot (R3minus a a) (R3minus a a) = 0) by (by apply R3minus_self_dot).
  assert (E' : R3dot (R3minus p a) (R3minus a a) = 0) by (unfold R3dot, R3minus; simpl; ring).
  rewrite E, E'. unfold ndiv, scaleInf.
  replace (Reqb 0 0) with true by (symmetry; by apply Reqb_true_iff).
  replace (Rltb 0 0) with false by (symmetry; apply Rltb_false_iff; lra).
  reflexivity.
Qed.

Lemma r3_eq u v : cx u = cx v -> cy u = cy v -> cz u = cz v -> u = v.
Proof. destruct u, v; simpl; intros; by subst. Qed.

Lemma R3norm_nonneg u : 0 <= R3norm u.
Proof. apply sqrt_pos. Qed.

Lemma R3norm_sqr u : R3norm u * R3norm u = R3dot u u.
Proof. apply sqrt_sqrt, R3dot_self_nonneg. Qed.


Lemma R3norm_pos_neq a b : a <> b -> 0 < R3norm (R3minus b a).
Proof.
  intros H. unfold R3norm. apply sqrt_lt_R0.
  pose proof (R3dot_self_nonneg (R3minus b a)).
  destruct (Req_dec_T (R3dot (R3minus b a) (R3minus b a)) 0) as [E|E]; [|lra].
  by apply R3minus_self_dot in E.
Qed.

Lemma R3normalize_nonzero u : R3norm u <> 0 -> R3normalize u = R3scale u (1 / R3norm u).
Proof. intros H. unfold R3normalize. by apply Reqb_false_iff in H as ->. Qed.

Lemma lineDirection_inj a b :
  lineDirection (mkSegment (inj a) (inj b)) = inj (R3normalize (R3minus b a)).
Proof. unfold lineDirection. cbn [start end_]. by rewrite sub_inj, normalize_inj. Qed.

Lemma normal_inj a b : normal (mkSegment (inj a) (inj b)) = inj (R3normal a b).
Proof. unfold normal. by rewrite lineDirection_inj. Qed.

Lemma reflect_inj v n : reflect (inj v) (inj n) = inj (R3reflect v n).
Proof. unfold reflect. rewrite dot_inj. cbn [nmul]. by rewrite multiplyScalar_inj, sub_inj. Qed.

Lemma closestPoint_inj p a b :
  closestPoint (inj p) (mkSegment (inj a) (inj b)) = inj (R3closestPoint p a b).
Proof.
  unfold closestPoint. rewrite lineDirection_inj. cbn [start].
  by rewrite sub_inj, dot_inj, multiplyScalar_inj, add_inj.
Qed.

Lemma pushDirection_inj p a b :
  pushDirection (inj p) (mkSegment (inj a) (inj b))
  = inj (R3normalize (R3minus p (R3closestPoint p a b))).
Proof. unfold pushDirection. by rewrite closestPoint_inj, sub_inj, normalize_inj. Qed.

Lemma R3reflect_dot v n : R3dot n n = 1 -> R3dot (R3reflect v n) (R3reflect v n) = R3dot v v.
Proof.
  intros H.
  replace (R3dot (R3reflect v n) (R3reflect v n))
    with (R3dot v v + 4 * (R3dot v n * R3dot v n) * (R3dot n n - 1))
    by (unfold R3reflect, R3dot, R3minus, R3scale; simpl; ring).
  rewrite H. ring.
Qed.

Lemma R3norm_one u : R3norm u = 1 <-> R3dot u u = 1.
Proof.
  unfold R3norm. split; intros H.
  - rewrite <- (sqrt_sqrt (R3dot u u)) by apply R3dot_self_nonneg. rewrite H. ring.
  - rewrite H. apply sqrt_1.
Qed.

Lemma R3normal_unit a b : a <> b -> cy a = cy b -> R3dot (R3normal a b) (R3normal a b) = 1.
Proof.
  intros Hab Hy. pose proof (R3norm_pos_neq a b Hab) as Hpos.
  unfold R3normal. rewrite R3normalize_nonzero by lra.
  pose proof (R3norm_sqr (R3minus b a)) as Hs.
  set (len := R3norm (R3minus b a)) in *.
  unfold R3dot, R3scale, R3minus in *. simpl in *.
  replace (cy b - cy a) with 0 in Hs by lra.
  assert (Hl : len <> 0) by lra.
  field_simplify_eq; [|done]. nra.
Qed.

(** ** The push *)

Lemma clamp01_id t : 0 <= t <= 1 -> clamp01 t = t.
Proof. intros [H0 H1]. unfold clamp01. rewrite Rmin_right by done. by rewrite Rmax_right. Qed.

Lemma R3closestPoint_eq p a b :
  a <> b ->
  R3closestPoint p a b = R3plus a (R3scale (R3minus b a) (R3parameter p a b)).
Proof.
  intros Hab. pose proof (R3norm_pos_neq a b Hab) as Hpos.
  unfold R3closestPoint, R3parameter. rewrite R3normalize_nonzero by lra.
  rewrite <- (R3norm_sqr (R3minus b a)).
  set (len := R3norm (R3minus b a)) in *.
  assert (Hl : len <> 0) by lra.
  apply r3_eq; unfold R3dot, R3plus, R3scale; simpl; field; done.
Qed.


Lemma R3projection_inside p a b :
  a <> b -> 0 <= R3parameter p a b <= 1 ->
  R3projection p a b = R3closestPoint p a b.
Proof.
  intros Hab Ht. rewrite R3closestPoint_eq by done.
  unfold R3projection. by rewrite clamp01_id.
Qed.

Lemma collideSegment_position p a b v r :
  a <> b -> R3pointToLine p a b < r ->
  position (collideSegment (mkBall (inj p) v (Fin r)) (mkSegment (inj a) (inj b)))
  = inj (R3pushed p a b r).
Proof.
  intros Hab Hd. unfold collideSegment. cbn [position radius start end_].
  rewrite pointToLineDistance_inj by done. cbn [nlt].
  apply Rltb_true_iff in Hd as ->. cbn [position].
  rewrite pushDirection_inj. cbn [nsub nneg nadd].
  by rewrite multiplyScalar_inj, add_inj.
Qed.

Lemma collideSegment_velocity p a b v r :
  velocity (collideSegment (mkBall p (inj v) r) (mkSegment (inj a) (inj b)))
  = inj v
  \/ velocity (collideSegment (mkBall p (inj v) r) (mkSegment (inj a) (inj b)))
  = inj (R3reflect v (R3normal a b)).
Proof.
  unfold collideSegment. cbn [position radius start end_ velocity].
  destruct (nlt _ _); cbn [velocity]; [right | by left].
  by rewrite normal_inj, reflect_inj.
Qed.


(** ** The loop of [updateBalls] *)

Lemma processed_length ls dt bs : length (processed ls dt bs).1 = length bs.
Proof.
  induction bs as [|b rest IH]; [done|]. simpl.
  destruct (processed ls dt rest) as [rest' ok]. simpl in IH.
  destruct ok; [destruct (staysInside dt b)|]; simpl; by rewrite IH.
Qed.

Lemma processed_ok ls dt bs :
  (processed ls dt bs).2 = forallb (staysInside dt) bs.
Proof.
  induction bs as [|b rest IH]; [done|]. simpl.
  destruct (processed ls dt rest) as [rest' ok]. simpl in IH. rewrite <- IH.
  destruct ok; [destruct (staysInside dt b)|]; simpl; try done.
  by rewrite andb_false_r.
Qed.

Lemma processed_snoc ls dt pre b :
  processed ls dt (pre ++ [b]) =
  if staysInside dt b
  then let '(pre', ok) := processed ls dt pre in (pre' ++ [iteration ls dt b], ok)
  else (pre ++ [moveBall dt b], false).
Proof.
  induction pre as [|a pre IH]; simpl.
  - by destruct (staysInside dt b).
  - rewrite IH. destruct (staysInside dt b).
    + destruct (processed ls dt pre) as [pre' ok].
      destruct ok; [destruct (staysInside dt a)|]; done.
    + done.
Qed.

Lemma insert_middle {A} (l1 l2 : list A) (a b : A) :
  <[length l1 := b]> (l1 ++ a :: l2) = l1 ++ b :: l2.
Proof. by rewrite insert_app_r_alt, Nat.sub_diag. Qed.

Lemma updateBallsFrom_spec dt n : forall g pre post,
  balls g = pre ++ post -> length pre = n ->
  updateBallsFrom n dt g =
  let '(pre', ok) := processed (lines g) dt pre in
  set_gameStarted (gameStarted g && ok) (set_balls (pre' ++ post) g).
Proof.
  induction n as [|i IH]; intros g pre post Hb Hlen.
  - destruct pre; [|done]. simpl in *. rewrite andb_true_r.
    destruct g; simpl in *; by subst.
  - destruct (decide (pre = [])) as [->|Hne]; [done|].
    destruct (exists_last Hne) as (pre0 & b & ->).
    rewrite length_app in Hlen. simpl in Hlen.
    assert (Hi : length pre0 = i) by lia.
    simpl. rewrite Hb.
    rewrite <- app_assoc. simpl.
    rewrite list_lookup_middle by done.
    rewrite processed_snoc. unfold staysInside at 1.
    replace (<[i:=moveBall dt b]> (pre0 ++ b :: post))
      with (pre0 ++ moveBall dt b :: post)
      by (rewrite <- Hi; symmetry; apply insert_middle).
    destruct (ballOutOfBounds (moveBall dt b)) eqn:E; cbn [negb].
    + rewrite andb_false_r. unfold gameOver.
      rewrite <- app_assoc. destruct g; reflexivity.
    + replace (<[i:=checkBallLineCollision (lines g) (moveBall dt b)]> (pre0 ++ b :: post))
        with (pre0 ++ iteration (lines g) dt b :: post)
        by (rewrite <- Hi; symmetry; apply insert_middle).
      erewrite IH; [| reflexivity | done]. cbn [lines set_balls].
      destruct (processed (lines g) dt pre0) as [pre' ok].
      rewrite <- app_assoc. destruct g; reflexivity.
Qed.

Lemma updateBalls_spec dt g :
  updateBalls dt g =
  set_gameStarted (gameStarted g && forallb (staysInside dt) (balls g))
    (set_balls (processed (lines g) dt (balls g)).1 g).
Proof.
  unfold updateBalls.
  rewrite (updateBallsFrom_spec dt _ g (balls g) []) by (by rewrite ?app_nil_r).
  rewrite <- (processed_ok (lines g)).
  destruct (processed (lines g) dt (balls g)) as [pre' ok]. simpl.
  by rewrite app_nil_r.
Qed.

(** ** The controller *)

Lemma updateBalls_lines dt g : lines (updateBalls dt g) = lines g.
Proof. by rewrite updateBalls_spec. Qed.
Lemma updateBalls_gameTime dt g : gameTime (updateBalls dt g) = gameTime g.
Proof. by rewrite updateBalls_spec. Qed.
Lemma updateBalls_nextBallSpawn dt g : nextBallSpawn (updateBalls dt g) = nextBallSpawn g.
Proof. by rewrite updateBalls_spec. Qed.
Lemma updateBalls_ballSpeed dt g : ballSpeed (updateBalls dt g) = ballSpeed g.
Proof. by rewrite updateBalls_spec. Qed.
Lemma updateBalls_length dt g : length (balls (updateBalls dt g)) = length (balls g).
Proof. rewrite updateBalls_spec. cbn [balls set_gameStarted set_balls]. apply processed_length. Qed.
Lemma updateBalls_gameStarted dt g :
  gameStarted (updateBalls dt g) = gameStarted g && forallb (staysInside dt) (balls g).
Proof. by rewrite updateBalls_spec. Qed.

Lemma gameLoop_running now rnd g :
  gameStarted g = true ->
  gameLoop now rnd g =
  updateBalls (advanceClock now g).1
    (spawnIfDue rnd (rampDifficulty (advanceClock now g).2)).
Proof. intros H. unfold gameLoop. rewrite H. reflexivity. Qed.

Lemma spawnIfDue_lines rnd g : lines (spawnIfDue rnd g) = lines g.
Proof. unfold spawnIfDue. by destruct (ngt _ _). Qed.
Lemma spawnIfDue_gameStarted rnd g : gameStarted (spawnIfDue rnd g) = gameStarted g.
Proof. unfold spawnIfDue. by destruct (ngt _ _). Qed.

Lemma gameLoop_lines now rnd g : lines (gameLoop now rnd g) = lines g.
Proof.
  destruct (gameStarted g) eqn:E.
  - rewrite gameLoop_running by done. by rewrite updateBalls_lines, spawnIfDue_lines.
  - unfold gameLoop. by rewrite E.
Qed.

Lemma gameLoop_stays_over now rnd g :
  gameStarted g = false -> gameLoop now rnd g = g.
Proof. intros E. unfold gameLoop. by rewrite E. Qed.

Lemma checkLineOutOfBounds_cases g :
  lines (checkLineOutOfBounds g) = lines g /\
  gameStarted (checkLineOutOfBounds g)
  = gameStarted g && negb (linesOutOfBounds (lines g)).
Proof.
  unfold checkLineOutOfBounds. fold (linesOutOfBounds (lines g)).
  destruct (linesOutOfBounds (lines g)); cbn.
  - by rewrite andb_false_r.
  - by rewrite andb_true_r.
Qed.

Lemma finalizeLine_cases g :
  (2 <= length (currentLinePoints g))%nat ->
  lines (finalizeLine g)
  = lines g ++ [mkLine (lineSegments (currentLinePoints g))] /\
  gameStarted (finalizeLine g)
  = gameStarted g
    && negb (linesOutOfBounds
               (lines g ++ [mkLine (lineSegments (currentLinePoints g))])).
Proof.
  intros H. unfold finalizeLine.
  replace (_ <? 2)%nat with false by (symmetry; apply Nat.ltb_ge; lia).
  apply checkLineOutOfBounds_cases.
Qed.

Lemma finalizeLine_short g :
  (length (currentLinePoints g) < 2)%nat -> finalizeLine g = g.
Proof. intros H. unfold finalizeLine. by apply Nat.ltb_lt in H as ->. Qed.

Lemma linesOutOfBounds_app ls ls' :
  linesOutOfBounds (ls ++ ls') = linesOutOfBounds ls || linesOutOfBounds ls'.
Proof. apply existsb_app. Qed.

(** In a running game no barrier crosses the boundary: the barrier that
    did ended the game when it was finalized. *)
Lemma running_lines_in_bounds g :
  Reachable g -> gameStarted g = true -> linesOutOfBounds (lines g) = false.
Proof.
  induction 1 as [|e g Hg IH]; [done|].
  destruct e; cbn [handle].
  - intros _. unfold startGame. by rewrite gameLoop_lines.
  - intros _. unfold restartGame, startGame. by rewrite gameLoop_lines.
  - rewrite gameLoop_lines. intros H. apply IH.
    destruct (gameStarted g) eqn:E; [done|]. by rewrite gameLoop_stays_over, E in H.
  - unfold onPointerDown. destruct (gameStarted g) eqn:E; cbn [negb]; [|by rewrite E].
    intros _. by apply IH.
  - unfold onPointerMove. destruct (gameStarted g) eqn:E; cbn [negb orb]; [|by rewrite E].
    intros H. assert (lines (if negb (isDrawing g) then g else
       match last (currentLinePoints g) with
       | Some lastPoint => if ngt (THREE.distanceTo lastPoint (vec3 px (Fin 0.1) pz)) (Fin 0.1)
           then set_currentLinePoints (currentLinePoints g ++ [vec3 px (Fin 0.1) pz]) g else g
       | None => g end) = lines g) as ->; [|by apply IH].
    destruct (negb (isDrawing g)); [done|]. destruct (last _); [|done]. by destruct (ngt _ _).
  - unfold onPointerUp. destruct (gameStarted g) eqn:E; cbn [negb orb]; [|by rewrite E].
    destruct (isDrawing g); cbn [negb]; [|by rewrite E; intros _; apply IH].
    cbn [set_currentLinePoints lines gameStarted].
    destruct (1 <? length (currentLinePoints (set_isDrawing false g)))%nat eqn:El.
    + apply Nat.ltb_lt in El.
      destruct (finalizeLine_cases (set_isDrawing false g)) as [-> ->]; [lia|].
      cbn [gameStarted set_isDrawing lines currentLinePoints]. rewrite E. cbn [andb].
      by intros ->%negb_true_iff.
    + cbn. intros _. by apply IH.
Qed.

(** ** Values of real expressions *)

Lemma r3_neq_x u v : cx u <> cx v -> u <> v.
Proof. by intros H ->. Qed.


Lemma sqrt_gt_bound x c : 0 <= c -> c * c < x -> c < sqrt x.
Proof.
  intros Hc H. rewrite <- (sqrt_square c) at 1 by lra. apply sqrt_lt_1; nra.
Qed.

Lemma Rdiv_eq_intro n d v : d <> 0 -> n = v * d -> n / d = v.
Proof. intros Hd ->. by field. Qed.

Ltac r3_parameter :=
  unfold R3parameter, R3dot, R3minus; simpl;
  apply Rdiv_eq_intro; lra.

Lemma R3norm_eq u d : 0 <= d -> R3dot u u = d * d -> R3norm u = d.
Proof. intros Hd H. unfold R3norm. rewrite H. by apply sqrt_square. Qed.

Lemma clamp01_low t : t <= 0 -> clamp01 t = 0.
Proof.
  intros H. unfold clamp01. rewrite Rmin_right by lra. by rewrite Rmax_left.
Qed.


(** ** The push, continued *)


(** C9 *)
Lemma R3normalize_zero u : R3norm u = 0 -> R3normalize u = R3scale u 1.
Proof.
  intros H. unfold R3normalize. apply Reqb_true_iff in H as ->.
  f_equal. lra.
Qed.

Lemma R3norm_zero u : u = r3 0 0 0 -> R3norm u = 0.
Proof. intros ->. apply R3norm_eq; [lra|]. unfold R3dot; simpl; ring. Qed.

Lemma R3minus_self u : R3minus u u = r3 0 0 0.
Proof. apply r3_eq; simpl; ring. Qed.

Lemma inj_inj u v : inj u = inj v -> u = v.
Proof. destruct u, v. unfold inj; simpl. by intros [= -> -> ->]. Qed.

Lemma R3_eq_dec (a b : R3) : {a = b} + {a <> b}.
Proof.
  destruct (Req_dec_T (R3dot (R3minus b a) (R3minus b a)) 0) as [E|E].
  - left. by apply R3minus_self_dot.
  - right. intros H. by apply E, R3minus_self_dot.
Qed.

Lemma collideSegment_position_finite q a b v r :
  exists q', position (collideSegment (mkBall (inj q) v (Fin r))
                        (mkSegment (inj a) (inj b))) = inj q'.
Proof.
  destruct (R3_eq_dec a b) as [->|Hab].
  - exists q. unfold collideSegment. cbn [position radius start end_].
    by rewrite pointToLineDistance_degenerate.
  - destruct (Rlt_dec (R3pointToLine q a b) r) as [Hd|Hd].
    + exists (R3pushed q a b r). by apply collideSegment_position.
    + exists q. unfold collideSegment. cbn [position radius start end_].
      rewrite pointToLineDistance_inj by done. cbn [nlt].
      replace (Rltb _ _) with false; [done|]. symmetry. apply Rltb_false_iff. lra.
Qed.

Lemma collideSegment_at_closest p a b v r :
  R3closestPoint p a b = p ->
  R3normalize (R3minus p (R3closestPoint p a b)) = r3 0 0 0
  /\ position (collideSegment (mkBall (inj p) v (Fin r)) (mkSegment (inj a) (inj b)))
     = inj p.
Proof.
  intros Hc.
  assert (Hpush : R3normalize (R3minus p (R3closestPoint p a b)) = r3 0 0 0).
  { rewrite Hc, R3minus_self, R3normalize_zero by (by apply R3norm_zero).
    apply r3_eq; simpl; ring. }
  split; [done|].
  unfold collideSegment. cbn [position radius start end_].
  destruct (nlt _ _) eqn:E; [|done]. cbn [position].
  rewrite pushDirection_inj, Hpush.
  destruct (R3_eq_dec a b) as [->|Hab].
  - by rewrite pointToLineDistance_degenerate in E.
  - rewrite pointToLineDistance_inj by done. cbn [nsub nneg nadd].
    rewrite multiplyScalar_inj, add_inj. f_equal. apply r3_eq; simpl; ring.
Qed.

(** ** The tick *)

Lemma processed_all_inside ls dt bs :
  forallb (staysInside dt) bs = true ->
  processed ls dt bs = (map (iteration ls dt) bs, true).
Proof.
  induction bs as [|b rest IH]; [done|]. cbn [forallb processed map].
  intros [Hb Hrest]%andb_true_iff. by rewrite IH, Hb.
Qed.

Lemma processed_breach ls dt pre b post :
  staysInside dt b = false ->
  forallb (staysInside dt) post = true ->
  processed ls dt (pre ++ b :: post)
  = (pre ++ moveBall dt b :: map (iteration ls dt) post, false).
Proof.
  intros Hb Hpost. induction pre as [|a pre IH].
  - cbn [app processed]. by rewrite processed_all_inside, Hb.
  - cbn [app processed]. by rewrite IH.
Qed.

Lemma forallb_staysInside dt (bs : list Ball) :
  forallb (staysInside dt) bs = true
  <-> forall b, b ∈ bs -> ballOutOfBounds (moveBall dt b) = false.
Proof.
  rewrite forallb_forall. unfold staysInside. split; intros H b Hb.
  - apply negb_true_iff, H. by apply list_elem_of_In.
  - apply negb_true_iff, H. by apply list_elem_of_In.
Qed.

Lemma beforeUpdate_gameStarted now rnd g :
  gameStarted (beforeUpdate now rnd g) = gameStarted g.
Proof. unfold beforeUpdate. by rewrite spawnIfDue_gameStarted. Qed.

Lemma beforeUpdate_lines now rnd g : lines (beforeUpdate now rnd g) = lines g.
Proof. unfold beforeUpdate. by rewrite spawnIfDue_lines. Qed.

Lemma gameLoop_cut now rnd g :
  gameStarted g = true ->
  gameLoop now rnd g = updateBalls (deltaTimeAt now g) (beforeUpdate now rnd g).
Proof. apply gameLoop_running. Qed.

Lemma spawnIncrement_fin t : spawnIncrement (Fin t) = Fin (Rmax 3 (8 - t * 0.1)).
Proof. reflexivity. Qed.

Lemma beforeUpdate_nextBallSpawn_due now rnd g :
  ngt (gameTime (advanceClock now g).2) (nextBallSpawn g) = true ->
  beforeUpdate now rnd g
  = let g1 := spawnBall rnd (rampDifficulty (advanceClock now g).2) in
    set_nextBallSpawn
      (nadd (nextBallSpawn g) (spawnIncrement (gameTime (advanceClock now g).2))) g1.
Proof.
  intros H. unfold beforeUpdate, spawnIfDue.
  cbn [gameTime nextBallSpawn rampDifficulty set_ballSpeed advanceClock snd
       set_gameTime set_lastTime spawnBall set_balls] in *.
  by rewrite H.
Qed.

Lemma beforeUpdate_not_due now rnd g :
  ngt (gameTime (advanceClock now g).2) (nextBallSpawn g) = false ->
  beforeUpdate now rnd g = rampDifficulty (advanceClock now g).2.
Proof.
  intros H. unfold beforeUpdate, spawnIfDue.
  cbn [gameTime nextBallSpawn rampDifficulty set_ballSpeed advanceClock snd
       set_gameTime set_lastTime] in *.
  by rewrite H.
Qed.

(** ** Ticks on finite values *)

Lemma boundarySize_half : ndiv boundarySize (Fin 2) = Fin (10 * 0.9 / 2).
Proof. unfold boundarySize, worldSize. cbn [nmul]. by rewrite ndiv_fin by lra. Qed.

Lemma ballOutOfBounds_fin p v r :
  ballOutOfBounds (mkBall (inj p) v (Fin r))
  = Rltb (10 * 0.9 / 2 - r) (Rabs (cx p)) || Rltb (10 * 0.9 / 2 - r) (Rabs (cz p)).
Proof. unfold ballOutOfBounds. by rewrite boundarySize_half. Qed.

Lemma moveBall_fin p v r dt :
  moveBall (Fin dt) (mkBall (inj p) (inj v) r)
  = mkBall (inj (R3plus p (R3scale v dt))) (inj v) r.
Proof. reflexivity. Qed.

Lemma Rltb_false a b : b <= a -> Rltb a b = false.
Proof. apply Rltb_false_iff. Qed.
Lemma Rltb_true a b : a < b -> Rltb a b = true.
Proof. apply Rltb_true_iff. Qed.

Lemma advanceClock_fin now g l t :
  lastTime g = Fin l -> gameTime g = Fin t ->
  advanceClock now g
  = (Fin ((now - l) / 1000),
     set_gameTime (Fin (t + (now - l) / 1000)) (set_lastTime (Fin now) g)).
Proof.
  intros Hl Ht. unfold advanceClock. rewrite Hl. cbn [nsub nneg nadd].
  rewrite ndiv_fin by lra. cbn [gameTime set_lastTime]. rewrite Ht. reflexivity.
Qed.

Lemma gameLoop_eval now rnd g l t n :
  gameStarted g = true ->
  lastTime g = Fin l -> gameTime g = Fin t -> nextBallSpawn g = Fin n ->
  t + (now - l) / 1000 <= n ->
  gameLoop now rnd g
  = updateBalls (Fin ((now - l) / 1000))
      (set_ballSpeed (Fin (2 + (t + (now - l) / 1000) * 0.1))
         (set_gameTime (Fin (t + (now - l) / 1000)) (set_lastTime (Fin now) g))).
Proof.
  intros Hrun Hl Ht Hn Hle. rewrite gameLoop_cut by done.
  unfold deltaTimeAt, beforeUpdate. rewrite (advanceClock_fin now g l t) by done.
  cbn [fst snd]. unfold spawnIfDue, rampDifficulty.
  cbn [gameTime nextBallSpawn set_ballSpeed set_gameTime set_lastTime].
  rewrite Hn. cbn [ngt nlt nmul nadd]. by rewrite Rltb_false.
Qed.

Lemma set_gameStarted_same g : set_gameStarted (gameStarted g) g = g.
Proof. by destruct g. Qed.

Lemma updateBalls_single dt g b :
  balls g = [b] ->
  updateBalls dt g
  = if staysInside dt b
    then set_balls [iteration (lines g) dt b] g
    else gameOver (set_balls [moveBall dt b] g).
Proof.
  intros Hb. rewrite updateBalls_spec, Hb. cbn [processed forallb].
  destruct (staysInside dt b); cbn [fst andb].
  - rewrite andb_true_r. by destruct g.
  - by rewrite andb_false_r.
Qed.

Lemma updateBalls_not_running dt g :
  gameStarted (updateBalls dt g) = true -> gameStarted g = true.
Proof. rewrite updateBalls_gameStarted. by intros [? _]%andb_true_iff. Qed.

Lemma resetGame_state rnd0 now0 g :
  resetGame rnd0 now0 g
  = mkGame [firstBall rnd0] [] true (Fin 0) (Fin now0) (isDrawing g)
      (currentLinePoints g) (Fin 2) (Fin 1) (Fin 5).
Proof. reflexivity. Qed.

Lemma startGame_same_clock rnd0 now0 rnd1 g :
  startGame rnd0 now0 now0 rnd1 g
  = mkGame [firstBall rnd0] [] true (Fin 0) (Fin now0) (isDrawing g)
      (currentLinePoints g) (Fin 2) (Fin 1) (Fin 5).
Proof.
  unfold startGame. rewrite resetGame_state.
  rewrite (gameLoop_eval now0 rnd1 _ now0 0 5) by (reflexivity || lra).
  replace ((now0 - now0) / 1000) with 0 by lra.
  rewrite (updateBalls_single _ _ (firstBall rnd0)) by reflexivity.
  assert (Hmove : moveBall (Fin 0) (firstBall rnd0) = firstBall rnd0).
  { unfold firstBall. rewrite moveBall_fin. do 2 f_equal. apply r3_eq; simpl; ring. }
  unfold staysInside, iteration. rewrite Hmove.
  unfold firstBall at 1. rewrite ballOutOfBounds_fin. cbn [cx cz].
  rewrite Rabs_R0, Rltb_false by lra. cbn [orb negb].
  cbn [set_balls set_ballSpeed set_gameTime set_lastTime lines checkBallLineCollision
       fold_left].
  replace (0 + 0) with 0 by lra. replace (2 + 0 * 0.1) with 2 by lra.
  reflexivity.
Qed.

Lemma gameLoop_session now rnd g g' :
  session g = session g' -> lastTime g = lastTime g' ->
  session (gameLoop now rnd g) = session (gameLoop now rnd g').
Proof.
  destruct g as [bs ls st gt lt dr ps sp bc nb].
  destruct g' as [bs' ls' st' gt' lt' dr' ps' sp' bc' nb'].
  unfold session. cbn. intros [= -> -> -> -> -> ->] ->.
  unfold gameLoop. cbn [gameStarted]. destruct st'; cbn [negb]; [|done].
  unfold advanceClock. cbn [lastTime gameTime set_lastTime set_gameTime].
  rewrite !updateBalls_spec. unfold spawnIfDue, rampDifficulty. cbn.
  destruct (ngt _ _); reflexivity.
Qed.

(** ** Finalizing a line *)

Lemma nle_ngt a b : nle a b = true -> ngt a b = false.
Proof. destruct a, b; cbn; try done; by intros ->%negb_true_iff. Qed.

Lemma segmentOutOfBounds_iff s :
  segmentOutOfBounds s = true
  <-> pointOutOfBounds (start s) \/ pointOutOfBounds (end_ s).
Proof.
  unfold segmentOutOfBounds, pointOutOfBounds, halfBoundary.
  rewrite !orb_true_iff. tauto.
Qed.

Lemma pointInBounds_not_out p : pointInBounds p -> ~ pointOutOfBounds p.
Proof.
  intros [Hx Hz] [H|H].
  - apply nle_ngt in Hx. congruence.
  - apply nle_ngt in Hz. congruence.
Qed.

Lemma onPointerUp_finalizes g :
  gameStarted g = true -> isDrawing g = true ->
  (2 <= length (currentLinePoints g))%nat ->
  onPointerUp g = set_currentLinePoints [] (finalizeLine (set_isDrawing false g)).
Proof.
  intros Hs Hd Hl. unfold onPointerUp. rewrite Hs, Hd. cbn [negb orb].
  cbn [currentLinePoints set_isDrawing].
  replace (1 <? _)%nat with true; [done|]. symmetry. apply Nat.ltb_lt. lia.
Qed.

(** ** The example sessions *)

Lemma reachable_run es g : Reachable g -> Reachable (run es g).
Proof.
  revert g. induction es as [|e es IH]; intros g Hg; [done|].
  cbn [run]. apply IH. by constructor.
Qed.

Lemma firstBall_0 :
  firstBall 0 = mkBall (inj (r3 0 0.15 0)) (inj (r3 2 0 0)) (Fin 0.15).
Proof.
  unfold firstBall. replace (0 * PI * 2) with 0 by ring.
  rewrite cos_0, sin_0. do 2 f_equal. apply r3_eq; simpl; lra.
Qed.

Lemma pointer_move_far (p q : R3) g :
  gameStarted g = true -> isDrawing g = true ->
  last (currentLinePoints g) = Some (inj p) ->
  cy q = 0.1 ->
  0.1 * 0.1 < R3dot (R3minus p q) (R3minus p q) ->
  onPointerMove (Fin (cx q)) (Fin (cz q)) g
  = set_currentLinePoints (currentLinePoints g ++ [inj q]) g.
Proof.
  intros Hs Hd Hlast Hy Hfar. unfold onPointerMove. rewrite Hs, Hd, Hlast.
  cbn [negb orb].
  replace (vec3 (Fin (cx q)) (Fin 0.1) (Fin (cz q))) with (inj q)
    by (unfold inj; by rewrite Hy).
  rewrite distanceTo_inj. cbn [ngt nlt].
  rewrite Rltb_true; [done|]. unfold R3norm. apply sqrt_gt_bound; [lra|done].
Qed.

Lemma drawingGame_state :
  drawingGame
  = mkGame [firstBall 0] [] true (Fin 0) (Fin 1000) true
      [inj (r3 0 0.1 0); inj (r3 1 0.1 0)] (Fin 2) (Fin 1) (Fin 5).
Proof.
  unfold drawingGame. cbn [run handle]. rewrite startGame_same_clock.
  cbn [newGame isDrawing currentLinePoints].
  unfold onPointerDown. cbn [gameStarted negb set_isDrawing set_currentLinePoints
    balls lines gameTime lastTime isDrawing currentLinePoints ballSpeed ballCount
    nextBallSpawn].
  rewrite (pointer_move_far (r3 0 0.1 0) (r3 1 0.1 0));
    [reflexivity | reflexivity | reflexivity | reflexivity | reflexivity |].
  unfold R3dot, R3minus; simpl; lra.
Qed.

Lemma segmentOutOfBounds_fin a b :
  segmentOutOfBounds (mkSegment (inj a) (inj b))
  = Rltb (10 * 0.9 / 2) (Rabs (cx a)) || Rltb (10 * 0.9 / 2) (Rabs (cz a))
    || Rltb (10 * 0.9 / 2) (Rabs (cx b)) || Rltb (10 * 0.9 / 2) (Rabs (cz b)).
Proof. unfold segmentOutOfBounds. by rewrite boundarySize_half. Qed.

Lemma Rabs_within c x : - c <= x <= c -> Rltb c (Rabs x) = false.
Proof. intros H. apply Rltb_false, Rabs_le. lra. Qed.


Lemma collideSegment_fin p v r a b :
  a <> b -> R3pointToLine p a b < r ->
  collideSegment (mkBall (inj p) (inj v) (Fin r)) (mkSegment (inj a) (inj b))
  = mkBall (inj (R3pushed p a b r)) (inj (R3reflect v (R3normal a b))) (Fin r).
Proof.
  intros Hab Hd.
  pose proof (collideSegment_position p a b (inj v) r Hab Hd) as Hp.
  unfold collideSegment in *. cbn [position radius start end_ velocity] in *.
  rewrite pointToLineDistance_inj in * by done. cbn [nlt] in *.
  rewrite Rltb_true in * by done. cbn [position] in Hp. rewrite Hp.
  by rewrite normal_inj, reflect_inj.
Qed.

Lemma guardedGame_state :
  guardedGame
  = mkGame [mkBall (inj (r3 0 0.15 0)) (inj (r3 2 0 0)) (Fin 0.15)]
      [mkLine [wallSegment]] true (Fin 0) (Fin 1000) false [] (Fin 2) (Fin 1) (Fin 5).
Proof.
  unfold guardedGame. cbn [run handle]. rewrite startGame_same_clock, firstBall_0.
  cbn [newGame isDrawing currentLinePoints].
  unfold onPointerDown. cbn [gameStarted negb set_isDrawing set_currentLinePoints
    balls lines gameTime lastTime isDrawing currentLinePoints ballSpeed ballCount
    nextBallSpawn].
  rewrite (pointer_move_far (r3 4.22 0.1 (-1)) (r3 4.22 0.1 1));
    [| reflexivity | reflexivity | reflexivity | reflexivity
     | unfold R3dot, R3minus; simpl; lra].
  unfold onPointerUp, finalizeLine, checkLineOutOfBounds.
  cbn [gameStarted isDrawing negb orb set_isDrawing set_currentLinePoints
    balls lines gameTime lastTime currentLinePoints ballSpeed ballCount nextBallSpawn
    app List.length Nat.ltb Nat.leb lineSegments set_lines existsb segments].
  change (mkSegment (vec3 (Fin 4.22) (Fin 0.1) (Fin (-1))) (inj (r3 4.22 0.1 1)))
    with (mkSegment (inj (r3 4.22 0.1 (-1))) (inj (r3 4.22 0.1 1))).
  rewrite segmentOutOfBounds_fin. cbn [cx cz].
  rewrite !Rabs_within by lra. reflexivity.
Qed.

Lemma wall_collision :
  collideSegment (mkBall (inj (r3 4.34 0.15 0)) (inj (r3 2 0 0)) (Fin 0.15)) wallSegment
  = pushedBall.
Proof.
  set (p := r3 4.34 0.15 0). set (a := r3 4.22 0.1 (-1)). set (b := r3 4.22 0.1 1).
  change wallSegment with (mkSegment (inj a) (inj b)).
  assert (Hab : a <> b) by (intros [=]; lra).
  assert (Hpar : R3parameter p a b = 0.5)
    by r3_parameter.
  assert (Hproj : R3projection p a b = r3 4.22 0.1 0).
  { unfold R3projection. rewrite Hpar, clamp01_id by lra. apply r3_eq; simpl; lra. }
  assert (Hc : R3closestPoint p a b = r3 4.22 0.1 0).
  { rewrite <- R3projection_inside by (done || rewrite Hpar; lra). exact Hproj. }
  assert (Hd : R3pointToLine p a b = 0.13).
  { unfold R3pointToLine. rewrite Hproj. apply R3norm_eq; [lra|].
    unfold R3dot, R3minus; simpl. lra. }
  assert (Hlen : R3norm (R3minus b a) = 2).
  { apply R3norm_eq; [lra|]. unfold R3dot, R3minus; simpl. lra. }
  rewrite collideSegment_fin by (done || rewrite Hd; lra).
  unfold pushedBall. f_equal; f_equal.
  - unfold R3pushed. rewrite Hc, Hd.
    assert (Hw : R3norm (R3minus p (r3 4.22 0.1 0)) = 0.13).
    { apply R3norm_eq; [lra|]. unfold R3dot, R3minus; simpl. lra. }
    rewrite R3normalize_nonzero by (rewrite Hw; lra). rewrite Hw.
    apply r3_eq; simpl; lra.
  - unfold R3reflect, R3normal. rewrite R3normalize_nonzero by (rewrite Hlen; lra).
    rewrite Hlen. apply r3_eq; unfold R3dot; simpl; lra.
Qed.

Lemma guardedGame_frame :
  gameLoop 3170 0 guardedGame
  = mkGame [pushedBall] [mkLine [wallSegment]] true (Fin (0 + (3170 - 1000) / 1000))
      (Fin 3170) false [] (Fin (2 + (0 + (3170 - 1000) / 1000) * 0.1)) (Fin 1) (Fin 5).
Proof.
  rewrite guardedGame_state.
  rewrite (gameLoop_eval 3170 0 _ 1000 0 5) by (reflexivity || lra).
  erewrite updateBalls_single by reflexivity.
  rewrite <- wall_collision.
  unfold staysInside, iteration. rewrite moveBall_fin.
  replace (R3plus (r3 0 0.15 0) (R3scale (r3 2 0 0) ((3170 - 1000) / 1000)))
    with (r3 4.34 0.15 0) by (apply r3_eq; simpl; lra).
  rewrite ballOutOfBounds_fin. cbn [cx cz].
  rewrite !Rabs_within by lra. reflexivity.
Qed.



(** The late test needs the ball to be outside still after the next move:
    a frame 16 ms after the push moves the reflected ball back to x < 4.35
    and passes the test. *)
Lemma pushedGame_frame_passes :
  gameStarted (gameLoop 3186 0 (gameLoop 3170 0 guardedGame)) = true.
Proof.
  rewrite guardedGame_frame.
  rewrite (gameLoop_eval 3186 0 _ 3170 (0 + (3170 - 1000) / 1000) 5)
    by (reflexivity || lra).
  rewrite updateBalls_gameStarted. cbn [gameStarted balls set_ballSpeed set_gameTime
    set_lastTime forallb andb].
  unfold staysInside, pushedBall. rewrite moveBall_fin, ballOutOfBounds_fin.
  cbn [cx cz R3plus R3scale]. rewrite !Rabs_within by lra. reflexivity.
Qed.

(** ** The segments of the game *)

Lemma lineSegments_snoc pts p q :
  last pts = Some p ->
  lineSegments (pts ++ [q]) = lineSegments pts ++ [mkSegment p q].
Proof.
  induction pts as [|a [|b rest] IH]; [done | |].
  - cbn. by intros [= ->].
  - intros Hlast. cbn [app lineSegments] in *. f_equal. by apply IH.
Qed.

Lemma updateBalls_currentLinePoints dt g :
  currentLinePoints (updateBalls dt g) = currentLinePoints g.
Proof. by rewrite updateBalls_spec. Qed.

Lemma gameLoop_currentLinePoints now rnd g :
  currentLinePoints (gameLoop now rnd g) = currentLinePoints g.
Proof.
  destruct (gameStarted g) eqn:E.
  - rewrite gameLoop_running by done. rewrite updateBalls_currentLinePoints.
    unfold spawnIfDue. by destruct (ngt _ _).
  - by rewrite gameLoop_stays_over.
Qed.

Lemma startGame_drawn rnd0 now0 now1 rnd1 g :
  drawnInvariant g -> drawnInvariant (startGame rnd0 now0 now1 rnd1 g).
Proof.
  intros (Hp & Hs & _). unfold drawnInvariant, startGame.
  rewrite gameLoop_currentLinePoints, gameLoop_lines. cbn. by repeat split.
Qed.

(** Every barrier of the game is made of segments at height 0.1 whose ends
    are more than 0.1 apart: the filter of [onPointerMove] keeps zero-length
    segments out of [pointToLineDistance]. *)
Lemma reachable_segments_drawn g : Reachable g -> drawnInvariant g.
Proof.
  induction 1 as [|e g Hg (Hp & Hs & Hl)].
  - repeat split; constructor.
  - destruct e; cbn [handle].
    + by apply startGame_drawn.
    + by apply startGame_drawn.
    + unfold drawnInvariant. by rewrite gameLoop_currentLinePoints, gameLoop_lines.
    + unfold onPointerDown. destruct (negb (gameStarted g)); [done|].
      repeat split; cbn; [by repeat constructor | constructor | done].
    + unfold onPointerMove.
      destruct (negb (gameStarted g) || negb (isDrawing g)); [done|].
      destruct (last (currentLinePoints g)) as [lastPoint|] eqn:Hlast; [|done].
      destruct (ngt _ _) eqn:Hfar; [|done].
      repeat split; cbn [currentLinePoints lines set_currentLinePoints]; [| |done].
      * apply Forall_app. split; [done|]. by repeat constructor.
      * rewrite (lineSegments_snoc _ lastPoint) by done.
        apply Forall_app. split; [done|]. repeat constructor; cbn [start end_]; [|done].
        rewrite Forall_forall in Hp. by apply Hp, last_Some_elem_of.
    + unfold onPointerUp.
      destruct (negb (gameStarted g) || negb (isDrawing g)); [done|].
      repeat split; cbn [currentLinePoints lines set_currentLinePoints];
        [constructor | constructor |].
      destruct (1 <? _)%nat eqn:El; [|done].
      apply Nat.ltb_lt in El.
      destruct (finalizeLine_cases (set_isDrawing false g)) as [-> _]; [done|].
      cbn [lines currentLinePoints set_isDrawing].
      apply Forall_app. split; [done|]. by repeat constructor.
Qed.

Lemma segmentDrawn_inj a b :
  segmentDrawn (mkSegment (inj a) (inj b)) -> a <> b /\ cy a = cy b.
Proof.
  intros (Ha & Hb & Hfar). cbn [start end_] in *. split.
  - intros ->. rewrite distanceTo_inj in Hfar. cbn [ngt nlt] in Hfar.
    rewrite R3minus_self, R3norm_zero, Rltb_false in Hfar by (done || lra). done.
  - unfold inj in Ha, Hb. cbn in Ha, Hb. congruence.
Qed.

(** ** The distance to a segment *)

(** The clamped projection is the point of the segment nearest to [p]. *)
Lemma R3pointToLine_least p a b s :
  a <> b -> 0 <= s <= 1 ->
  R3pointToLine p a b <= R3norm (R3minus p (R3plus a (R3scale (R3minus b a) s))).
Proof.
  intros Hab Hs.
  assert (HN : 0 < R3dot (R3minus b a) (R3minus b a)).
  { pose proof (R3dot_self_nonneg (R3minus b a)).
    destruct (Req_dec_T (R3dot (R3minus b a) (R3minus b a)) 0) as [E|E]; [|lra].
    by apply R3minus_self_dot in E. }
  unfold R3pointToLine, R3projection, R3norm. apply sqrt_le_1;
    [apply R3dot_self_nonneg | apply R3dot_self_nonneg |].
  assert (Hsq : forall k,
    R3dot (R3minus p (R3plus a (R3scale (R3minus b a) k)))
          (R3minus p (R3plus a (R3scale (R3minus b a) k)))
    = R3dot (R3minus p a) (R3minus p a)
      - 2 * k * R3dot (R3minus p a) (R3minus b a)
      + k * k * R3dot (R3minus b a) (R3minus b a))
    by (intros k; unfold R3dot, R3minus, R3plus, R3scale; simpl; ring).
  rewrite !Hsq.
  assert (Hq : R3dot (R3minus p a) (R3minus b a)
               = R3parameter p a b * R3dot (R3minus b a) (R3minus b a))
    by (unfold R3parameter; field; lra).
  rewrite Hq.
  set (N := R3dot (R3minus b a) (R3minus b a)) in *.
  set (t := R3parameter p a b) in *.
  assert (Hcases : (t <= 0 /\ clamp01 t = 0) \/ (0 <= t <= 1 /\ clamp01 t = t)
                   \/ (1 <= t /\ clamp01 t = 1)).
  { destruct (Rle_dec t 0); [left; split; [done | by apply clamp01_low]|].
    destruct (Rle_dec t 1); [right; left; split; [lra | apply clamp01_id; lra]|].
    right; right. split; [lra|]. unfold clamp01.
    rewrite Rmin_left by lra. apply Rmax_right. lra. }
  destruct Hcases as [[Ht ->] | [[Ht ->] | [Ht ->]]].
  - assert (0 <= s * N * (s - 2 * t)) by (apply Rmult_le_pos; nra). nra.
  - assert (0 <= (s - t) * (s - t) * N)
      by (apply Rmult_le_pos; [apply Rle_0_sqr | lra]). nra.
  - assert (0 <= (1 - s) * N * (2 * t - 1 - s)) by (apply Rmult_le_pos; nra). nra.
Qed.

(** * The claims *)




(** Claim C2, as amended.  On a segment with distinct ends
    [pointToLineDistance] returns the Euclidean distance from [p] to its
    projection on the segment, the parameter clamped to [0, 1], and no point
    of the segment is nearer to [p].  On a zero-length segment it raises no
    fault, but the quotient is 0/0 and the result is [NaN], not the distance
    to [a]; such a segment never passes the test of the collision
    response.  ([reachable_segments_drawn]: the game has no such segment.) *)
Theorem pointToLineDistance_spec (p a b : R3) :
  a <> b ->
  pointToLineDistance (inj p) (inj a) (inj b)
  = Fin (R3norm (R3minus p (R3plus a (R3scale (R3minus b a)
                                       (Rmax 0 (Rmin 1 (R3parameter p a b)))))))
  /\ (forall s d,
        0 <= s <= 1 ->
        pointToLineDistance (inj p) (inj a) (inj b) = Fin d ->
        d <= R3norm (R3minus p (R3plus a (R3scale (R3minus b a) s))))
  /\ pointToLineDistance (inj p) (inj a) (inj a) = NaN
  /\ (forall v r,
        collideSegment (mkBall (inj p) v r) (mkSegment (inj a) (inj a))
        = mkBall (inj p) v r).
Proof.
  intros H. split; [| split; [| split]].
  - by rewrite pointToLineDistance_inj.
  - intros s d Hs. rewrite pointToLineDistance_inj by done. intros [= <-].
    by apply R3pointToLine_least.
  - apply pointToLineDistance_degenerate.
  - intros v r. unfold collideSegment. cbn [position start end_].
    by rewrite pointToLineDistance_degenerate.
Qed.

(** [pointToLineDistance_spec] at the point (0, 1, 0) and the segment from
    the origin to (1, 0, 0). *)
Lemma pointToLineDistance_spec_witness :
  r3 0 0 0 <> r3 1 0 0
  /\ pointToLineDistance (inj (r3 0 1 0)) (inj (r3 0 0 0)) (inj (r3 1 0 0))
     = Fin (R3norm (R3minus (r3 0 1 0)
              (R3plus (r3 0 0 0)
                 (R3scale (R3minus (r3 1 0 0) (r3 0 0 0))
                    (Rmax 0 (Rmin 1 (R3parameter (r3 0 1 0) (r3 0 0 0) (r3 1 0 0)))))))).
Proof.
  assert (H : r3 0 0 0 <> r3 1 0 0) by (apply r3_neq_x; simpl; lra).
  split; [exact H |].
  exact (proj1 (pointToLineDistance_spec (r3 0 1 0) (r3 0 0 0) (r3 1 0 0) H)).
Defined.

(** Claim C2 fails on a zero-length segment: from (1, 0, 0) to the segment
    reduced to the origin the function returns [NaN], and the distance to the
    origin is 1. *)
Lemma pointToLineDistance_degenerate_counterexample :
  pointToLineDistance (vec3 (Fin 1) (Fin 0) (Fin 0)) (vec3 (Fin 0) (Fin 0) (Fin 0))
    (vec3 (Fin 0) (Fin 0) (Fin 0)) = NaN
  /\ THREE.distanceTo (vec3 (Fin 1) (Fin 0) (Fin 0)) (vec3 (Fin 0) (Fin 0) (Fin 0))
     = Fin 1.
Proof.
  split.
  - apply (pointToLineDistance_degenerate (r3 1 0 0) (r3 0 0 0)).
  - change (THREE.distanceTo (inj (r3 1 0 0)) (inj (r3 0 0 0)) = Fin 1).
    rewrite distanceTo_inj. f_equal.
    apply R3norm_eq; [lra|]. unfold R3dot, R3minus; simpl; ring.
Qed.

(** Claim C3.  A tick of a running session ends the session exactly when
    some ball, moved by [velocity * deltaTime], fails the boundary test.  The
    loop then stops at the first such ball that it meets, going from the last
    ball to the first: that ball is moved and not collided, the balls before
    it in the list are left as they were, the balls after it have been moved
    and collided.  When no ball fails the test every ball is moved and
    collided. *)
Theorem tick_boundary_breach (now rnd : R) (g : Game) :
  gameStarted g = true ->
  let deltaTime := deltaTimeAt now g in
  let g' := beforeUpdate now rnd g in
  (gameStarted (gameLoop now rnd g) = false
   <-> exists ball, ball ∈ balls g' /\ ballOutOfBounds (moveBall deltaTime ball) = true)
  /\ (forall pre ball post,
        balls g' = pre ++ ball :: post ->
        ballOutOfBounds (moveBall deltaTime ball) = true ->
        (forall b, b ∈ post -> ballOutOfBounds (moveBall deltaTime b) = false) ->
        balls (gameLoop now rnd g)
        = pre ++ moveBall deltaTime ball
              :: map (fun b => checkBallLineCollision (lines g) (moveBall deltaTime b))
                   post)
  /\ ((forall b, b ∈ balls g' -> ballOutOfBounds (moveBall deltaTime b) = false) ->
      balls (gameLoop now rnd g)
      = map (fun b => checkBallLineCollision (lines g) (moveBall deltaTime b))
          (balls g')).
Proof.
  intros Hrun deltaTime g'. rewrite gameLoop_cut by done.
  fold deltaTime g'. rewrite updateBalls_spec.
  cbn [gameStarted balls set_gameStarted set_balls].
  assert (Hs : gameStarted g' = true) by (unfold g'; by rewrite beforeUpdate_gameStarted).
  assert (Hl : lines g' = lines g) by apply beforeUpdate_lines.
  rewrite Hs, Hl. cbn [andb]. split; [| split].
  - split.
    + intros H. apply not_true_iff_false in H.
      rewrite forallb_forall in H.
      destruct (existsb (fun b => ballOutOfBounds (moveBall deltaTime b)) (balls g')) eqn:E.
      * apply existsb_exists in E as (b & Hb & Hout). exists b. split; [|done].
        by apply list_elem_of_In.
      * exfalso. apply H. intros b Hb. unfold staysInside. apply negb_true_iff.
        destruct (ballOutOfBounds (moveBall deltaTime b)) eqn:Eb; [|done].
        assert (existsb (fun b => ballOutOfBounds (moveBall deltaTime b)) (balls g') = true)
          by (apply existsb_exists; eauto).
        congruence.
    + intros (b & Hb & Hout). apply not_true_iff_false. intros H.
      pose proof (proj1 (forallb_staysInside _ _) H b Hb) as Hin.
      by rewrite Hin in Hout.
  - intros pre ball post Hbs Hout Hpost. rewrite Hbs.
    rewrite processed_breach; [reflexivity | unfold staysInside; by rewrite Hout |].
    by apply forallb_staysInside.
  - intros H. rewrite processed_all_inside; [reflexivity|]. by apply forallb_staysInside.
Qed.

(** [tick_boundary_breach] on a session that has just been reset. *)
Lemma tick_boundary_breach_witness :
  gameStarted freshGame = true
  /\ (gameStarted (gameLoop 1016 0 freshGame) = false
      <-> exists ball,
            ball ∈ balls (beforeUpdate 1016 0 freshGame)
            /\ ballOutOfBounds (moveBall (deltaTimeAt 1016 freshGame) ball) = true).
Proof.
  split; [reflexivity |].
  exact (proj1 (tick_boundary_breach 1016 0 freshGame eq_refl)).
Defined.

(** Claim C4.  In a running session, releasing the pointer on a buffer of at
    least two points finalizes the line: the barrier made of its segments is
    appended to the barriers in both cases; the session stays running when
    every end of every segment has [|x| <= boundarySize/2] and
    [|z| <= boundarySize/2], and is over when some end has
    [|x| > boundarySize/2] or [|z| > boundarySize/2]. *)
Theorem finalize_boundary_check (g : Game) :
  Reachable g ->
  gameStarted g = true -> isDrawing g = true ->
  (2 <= length (currentLinePoints g))%nat ->
  let barrier := mkLine (lineSegments (currentLinePoints g)) in
  onPointerUp g = set_currentLinePoints [] (finalizeLine (set_isDrawing false g))
  /\ lines (onPointerUp g) = lines g ++ [barrier]
  /\ ((forall s, s ∈ segments barrier ->
         pointInBounds (start s) /\ pointInBounds (end_ s)) ->
      gameStarted (onPointerUp g) = true)
  /\ ((exists s, s ∈ segments barrier
                 /\ (pointOutOfBounds (start s) \/ pointOutOfBounds (end_ s))) ->
      gameStarted (onPointerUp g) = false).
Proof.
  intros Hreach Hs Hd Hl barrier.
  pose proof (running_lines_in_bounds g Hreach Hs) as Hinv.
  rewrite onPointerUp_finalizes by done.
  cbn [lines gameStarted set_currentLinePoints].
  destruct (finalizeLine_cases (set_isDrawing false g)) as [-> ->]; [done|].
  cbn [lines gameStarted currentLinePoints set_isDrawing]. fold barrier.
  rewrite Hs, linesOutOfBounds_app, Hinv. cbn [andb orb linesOutOfBounds existsb].
  rewrite orb_false_r.
  split; [done|]. split; [done|]. split.
  - intros Hin. apply negb_true_iff, not_true_iff_false.
    intros (s & Hsin & Hout)%existsb_exists.
    apply list_elem_of_In in Hsin. destruct (Hin s Hsin) as [Ha Hb].
    apply segmentOutOfBounds_iff in Hout as [Hout|Hout].
    + exact (pointInBounds_not_out _ Ha Hout).
    + exact (pointInBounds_not_out _ Hb Hout).
  - intros (s & Hsin & Hout). apply negb_false_iff, existsb_exists.
    exists s. split; [by apply list_elem_of_In | by apply segmentOutOfBounds_iff].
Qed.

(** [finalize_boundary_check] applies to the session [drawingGame]. *)
Lemma finalize_boundary_check_witness :
  Reachable drawingGame
  /\ gameStarted drawingGame = true
  /\ isDrawing drawingGame = true
  /\ (2 <= length (currentLinePoints drawingGame))%nat
  /\ lines (onPointerUp drawingGame)
     = lines drawingGame ++ [mkLine (lineSegments (currentLinePoints drawingGame))].
Proof.
  assert (H1 : Reachable drawingGame) by (apply reachable_run; constructor).
  assert (H2 : gameStarted drawingGame = true) by (by rewrite drawingGame_state).
  assert (H3 : isDrawing drawingGame = true) by (by rewrite drawingGame_state).
  assert (H4 : (2 <= length (currentLinePoints drawingGame))%nat)
    by (rewrite drawingGame_state; cbn; lia).
  split; [exact H1|]. split; [exact H2|]. split; [exact H3|]. split; [exact H4|].
  exact (proj1 (proj2 (finalize_boundary_check drawingGame H1 H2 H3 H4))).
Defined.

(** Claim C5.  On a tick of a running session, with [elapsedTime] the
    clock after it has been advanced: if [elapsedTime > nextBallSpawn] one
    ball is added and [nextBallSpawn] grows by
    [max(3, 8 - elapsedTime * 0.1)]; otherwise no ball is added and
    [nextBallSpawn] is unchanged.  The increment is at least 3 and does not
    grow with the elapsed time. *)
Theorem spawn_cadence (now rnd : R) (g : Game) (t : R) :
  gameStarted g = true ->
  let elapsedTime := gameTime (advanceClock now g).2 in
  (ngt elapsedTime (nextBallSpawn g) = true ->
     balls (beforeUpdate now rnd g) = balls g ++ [spawned rnd elapsedTime]
     /\ length (balls (gameLoop now rnd g)) = S (length (balls g))
     /\ nextBallSpawn (gameLoop now rnd g)
        = nadd (nextBallSpawn g)
            (Math_max (Fin 3) (nsub (Fin 8) (nmul elapsedTime (Fin 0.1)))))
  /\ (ngt elapsedTime (nextBallSpawn g) = false ->
        balls (beforeUpdate now rnd g) = balls g
        /\ length (balls (gameLoop now rnd g)) = length (balls g)
        /\ nextBallSpawn (gameLoop now rnd g) = nextBallSpawn g)
  /\ Math_max (Fin 3) (nsub (Fin 8) (nmul (Fin t) (Fin 0.1)))
     = Fin (Rmax 3 (8 - t * 0.1))
  /\ 3 <= Rmax 3 (8 - t * 0.1)
  /\ (forall t', t <= t' -> Rmax 3 (8 - t' * 0.1) <= Rmax 3 (8 - t * 0.1)).
Proof.
  intros Hrun elapsedTime.
  rewrite gameLoop_cut by done.
  rewrite updateBalls_length, updateBalls_nextBallSpawn.
  split; [| split; [| split; [| split]]].
  - intros Hdue. rewrite beforeUpdate_nextBallSpawn_due by done.
    cbn [balls set_nextBallSpawn spawnBall set_balls nextBallSpawn].
    split; [reflexivity|]. split; [|reflexivity].
    rewrite length_app. cbn. lia.
  - intros Hnot. rewrite beforeUpdate_not_due by done. done.
  - reflexivity.
  - apply Rmax_l.
  - intros t' Ht. apply Rle_max_compat_l. lra.
Qed.

(** [spawn_cadence] on a session that has just been reset, for a tick six
    seconds later: the clock passes the threshold 5 and a second ball is
    spawned. *)
Lemma spawn_cadence_witness :
  gameStarted freshGame = true
  /\ ngt (gameTime (advanceClock 7000 freshGame).2) (nextBallSpawn freshGame) = true
  /\ length (balls (gameLoop 7000 0 freshGame)) = 2%nat
  /\ 3 <= Rmax 3 (8 - 6 * 0.1).
Proof.
  pose proof (spawn_cadence 7000 0 freshGame 6 eq_refl) as (Hdue & _ & _ & Hmin & _).
  assert (H : ngt (gameTime (advanceClock 7000 freshGame).2) (nextBallSpawn freshGame)
              = true).
  { rewrite (advanceClock_fin 7000 freshGame 1000 0) by reflexivity.
    cbn. apply Rltb_true. lra. }
  split; [reflexivity|]. split; [exact H|]. split; [|exact Hmin].
  exact (proj1 (proj2 (Hdue H))).
Defined.

(** Claim C6.  The reflection [v - 2 (v . n) n] of a velocity [v] by a unit
    vector [n] has the length of [v]; the normal of the collision response is
    a unit vector for a segment with distinct ends at one height (as
    [reachable_segments_drawn] shows the segments of the game to be); hence
    the collision response keeps the length of the velocity. *)
Theorem reflection_preserves_norm (v n a b : R3) (p : Vector3) (r : num) :
  THREE.length (inj n) = Fin 1 ->
  a <> b -> cy a = cy b ->
  THREE.length (reflect (inj v) (inj n)) = THREE.length (inj v)
  /\ THREE.length (normal (mkSegment (inj a) (inj b))) = Fin 1
  /\ THREE.length
       (velocity (collideSegment (mkBall p (inj v) r) (mkSegment (inj a) (inj b))))
     = THREE.length (inj v).
Proof.
  intros Hn Hab Hy.
  rewrite length_inj in Hn. injection Hn as Hn. apply R3norm_one in Hn.
  pose proof (R3normal_unit a b Hab Hy) as Hu.
  repeat split.
  - rewrite reflect_inj, !length_inj. unfold R3norm. by rewrite R3reflect_dot.
  - rewrite normal_inj, length_inj. f_equal. by apply R3norm_one.
  - destruct (collideSegment_velocity p a b v r) as [-> | ->]; [done|].
    rewrite !length_inj. unfold R3norm. by rewrite R3reflect_dot.
Qed.

(** [reflection_preserves_norm] for the unit vector (0, 0, 1) and the
    segment from (0, 0.1, 0) to (1, 0.1, 0). *)
Lemma reflection_preserves_norm_witness :
  THREE.length (inj (r3 0 0 1)) = Fin 1
  /\ r3 0 0.1 0 <> r3 1 0.1 0
  /\ cy (r3 0 0.1 0) = cy (r3 1 0.1 0)
  /\ THREE.length (reflect (inj (r3 1.2 0 1.6)) (inj (r3 0 0 1)))
     = THREE.length (inj (r3 1.2 0 1.6))
  /\ THREE.length (normal (mkSegment (inj (r3 0 0.1 0)) (inj (r3 1 0.1 0)))) = Fin 1
  /\ THREE.length
       (velocity (collideSegment
                    (mkBall (inj (r3 0.5 0.15 0)) (inj (r3 1.2 0 1.6)) (Fin 0.15))
                    (mkSegment (inj (r3 0 0.1 0)) (inj (r3 1 0.1 0)))))
     = THREE.length (inj (r3 1.2 0 1.6)).
Proof.
  assert (H1 : THREE.length (inj (r3 0 0 1)) = Fin 1).
  { rewrite length_inj. f_equal. apply R3norm_eq; [lra|]. unfold R3dot; simpl; ring. }
  assert (H2 : r3 0 0.1 0 <> r3 1 0.1 0) by (apply r3_neq_x; simpl; lra).
  assert (H3 : cy (r3 0 0.1 0) = cy (r3 1 0.1 0)) by reflexivity.
  split; [exact H1|]. split; [exact H2|]. split; [exact H3|].
  exact (reflection_preserves_norm (r3 1.2 0 1.6) (r3 0 0 1) (r3 0 0.1 0) (r3 1 0.1 0)
           (inj (r3 0.5 0.15 0)) (Fin 0.15) H1 H2 H3).
Defined.

(** Claim C7.  [spawnBall] appends one ball, at (0, 0) of the plane (height
    0.15), with velocity [(cos angle, 0, sin angle) * ballSpeed], and keeps
    the balls that were there; the difficulty ramp and the advance of the
    clock keep all balls and set [ballSpeed] to [2 + gameTime * 0.1].  Hence
    the ball that a tick spawns is [spawned rnd elapsedTime], behind the
    unchanged balls, and the ball of a reset is [spawned rnd0 0], the clock
    being 0. *)
Theorem spawn_frame (rnd rnd0 now0 now : R) (g : Game) :
  let angle := nmul (nmul (Fin rnd) Math_PI) (Fin 2) in
  let elapsedTime := gameTime (advanceClock now g).2 in
  balls (spawnBall rnd g)
  = balls g ++ [mkBall (vec3 (Fin 0) (Fin 0.15) (Fin 0))
                  (vec3 (nmul (Math_cos angle) (ballSpeed g)) (Fin 0)
                        (nmul (Math_sin angle) (ballSpeed g)))
                  (Fin 0.15)]
  /\ balls (rampDifficulty g) = balls g
  /\ ballSpeed (rampDifficulty g) = nadd (Fin 2) (nmul (gameTime g) (Fin 0.1))
  /\ balls (advanceClock now g).2 = balls g
  /\ balls (beforeUpdate now rnd g)
     = balls g ++ (if ngt elapsedTime (nextBallSpawn g)
                   then [spawned rnd elapsedTime] else [])
  /\ gameTime (resetGame rnd0 now0 g) = Fin 0
  /\ balls (resetGame rnd0 now0 g) = [spawned rnd0 (Fin 0)].
Proof.
  intros angle elapsedTime.
  split; [reflexivity|]. split; [reflexivity|]. split; [reflexivity|].
  split; [reflexivity|]. split; [| split; [reflexivity|]].
  - destruct (ngt elapsedTime (nextBallSpawn g)) eqn:E.
    + rewrite beforeUpdate_nextBallSpawn_due by exact E. reflexivity.
    + rewrite beforeUpdate_not_due by exact E.
      cbn [balls rampDifficulty set_ballSpeed]. by rewrite app_nil_r.
  - rewrite resetGame_state. cbn [balls]. f_equal.
    unfold firstBall, spawned, inj. cbn. do 2 f_equal; f_equal; lra.
Qed.

(** Claim C8, as amended.  With the same random draws and readings of the
    clock, a restart from any state gives the session state of a start from the
    state of a new game.  The reset inside it leaves [gameTime = 0],
    [ballSpeed = 2], [nextBallSpawn = 5], one ball and no barrier, and
    [startGame] then runs the first tick: the state after the command has
    these values when the clock reads the same at the reset and at that
    tick. *)
Theorem restart_is_start (rnd0 now0 now1 rnd1 : R) (g : Game) :
  session (restartGame rnd0 now0 now1 rnd1 g)
  = session (startGame rnd0 now0 now1 rnd1 newGame)
  /\ session (resetGame rnd0 now0 g)
     = (true, Fin 0, Fin 2, Fin 5, [spawned rnd0 (Fin 0)], [])
  /\ session (restartGame rnd0 now0 now0 rnd1 g)
     = (true, Fin 0, Fin 2, Fin 5, [spawned rnd0 (Fin 0)], []).
Proof.
  assert (Hb : firstBall rnd0 = spawned rnd0 (Fin 0)).
  { unfold firstBall, spawned, inj. cbn. do 2 f_equal; f_equal; lra. }
  split; [| split].
  - unfold restartGame, startGame. apply gameLoop_session; reflexivity.
  - rewrite resetGame_state. unfold session. cbn. by rewrite Hb.
  - unfold restartGame. rewrite startGame_same_clock. unfold session. cbn.
    by rewrite Hb.
Qed.

(** Claim C8 fails when the clock moves between the reset and the first
    tick that [startGame] runs: one millisecond later the elapsed time after
    the restart is 0.001, not 0. *)
Lemma restart_clock_counterexample :
  gameStarted lostGame = false
  /\ gameTime (restartGame 0 5000 5001 0 lostGame) = Fin (0 + (5001 - 5000) / 1000)
  /\ gameTime (restartGame 0 5000 5001 0 lostGame) <> Fin 0.
Proof.
  assert (H : gameTime (restartGame 0 5000 5001 0 lostGame)
              = Fin (0 + (5001 - 5000) / 1000)).
  { unfold restartGame, startGame. rewrite resetGame_state.
    rewrite (gameLoop_eval 5001 0 _ 5000 0 5) by (reflexivity || lra).
    by rewrite updateBalls_gameTime. }
  split; [reflexivity|]. split; [exact H|].
  rewrite H. intros [= E]. lra.
Qed.

(** Claim C9, as amended.  When the centre of the ball is the point
    [closestPoint] of the carrier line, the vector to normalize is zero and
    [normalize] returns the zero vector: the push direction is (0, 0, 0) and
    the position of the ball is unchanged.  For every finite position, segment
    and radius the position after the response is finite. *)
Theorem push_at_closest_point (p a b : R3) (v : Vector3) (r : R) :
  closestPoint (inj p) (mkSegment (inj a) (inj b)) = inj p ->
  pushDirection (inj p) (mkSegment (inj a) (inj b))
  = vec3 (Fin 0) (Fin 0) (Fin 0)
  /\ position (collideSegment (mkBall (inj p) v (Fin r)) (mkSegment (inj a) (inj b)))
     = inj p
  /\ forall q : R3,
       exists q' : R3,
         position (collideSegment (mkBall (inj q) v (Fin r))
                     (mkSegment (inj a) (inj b))) = inj q'.
Proof.
  intros Hc. rewrite closestPoint_inj in Hc. apply inj_inj in Hc.
  destruct (collideSegment_at_closest p a b v r Hc) as [Hpush Hpos].
  split; [| split].
  - rewrite pushDirection_inj, Hpush. reflexivity.
  - exact Hpos.
  - intros q. apply collideSegment_position_finite.
Qed.

(** [push_at_closest_point] for a ball centred on the middle of the segment
    from (0, 0.1, 0) to (1, 0.1, 0). *)
Lemma push_at_closest_point_witness :
  closestPoint (inj (r3 0.5 0.1 0)) (mkSegment (inj (r3 0 0.1 0)) (inj (r3 1 0.1 0)))
  = inj (r3 0.5 0.1 0)
  /\ position (collideSegment (mkBall (inj (r3 0.5 0.1 0)) (inj (r3 1.2 0 1.6)) (Fin 0.15))
                 (mkSegment (inj (r3 0 0.1 0)) (inj (r3 1 0.1 0))))
     = inj (r3 0.5 0.1 0).
Proof.
  assert (Hab : r3 0 0.1 0 <> r3 1 0.1 0) by (apply r3_neq_x; simpl; lra).
  assert (H : closestPoint (inj (r3 0.5 0.1 0))
                (mkSegment (inj (r3 0 0.1 0)) (inj (r3 1 0.1 0)))
              = inj (r3 0.5 0.1 0)).
  { rewrite closestPoint_inj, R3closestPoint_eq by done. f_equal.
    apply r3_eq; unfold R3parameter, R3dot, R3minus; simpl; field; lra. }
  split; [exact H|].
  exact (proj1 (proj2 (push_at_closest_point (r3 0.5 0.1 0) (r3 0 0.1 0) (r3 1 0.1 0)
                         (inj (r3 1.2 0 1.6)) 0.15 H))).
Defined.

(** Claim C9 fails: the ball centred on the middle of the segment penetrates
    it, is at its own closest point, and the response leaves it at the finite
    position (0.5, 0.1, 0). *)
Lemma zero_push_is_finite :
  nlt (pointToLineDistance (position ballOnTheLine) (start floorSegment)
         (end_ floorSegment)) (radius ballOnTheLine) = true
  /\ closestPoint (position ballOnTheLine) floorSegment = position ballOnTheLine
  /\ position (collideSegment ballOnTheLine floorSegment)
     = vec3 (Fin 0.5) (Fin 0.1) (Fin 0).
Proof.
  set (p := r3 0.5 0.1 0). set (a := r3 0 0.1 0). set (b := r3 1 0.1 0).
  change floorSegment with (mkSegment (inj a) (inj b)).
  change ballOnTheLine with (mkBall (inj p) (inj (r3 1.2 0 1.6)) (Fin 0.15)).
  cbn [position radius start end_].
  assert (Hab : a <> b) by (apply r3_neq_x; simpl; lra).
  assert (Hpar : R3parameter p a b = 0.5)
    by r3_parameter.
  assert (Hc : closestPoint (inj p) (mkSegment (inj a) (inj b)) = inj p).
  { rewrite closestPoint_inj, R3closestPoint_eq, Hpar by done. f_equal.
    apply r3_eq; simpl; lra. }
  assert (Hd : R3pointToLine p a b = 0).
  { unfold R3pointToLine, R3projection. rewrite Hpar, clamp01_id by lra.
    apply R3norm_eq; [lra|]. unfold R3dot, R3minus, R3plus, R3scale; simpl. lra. }
  split; [| split].
  - rewrite pointToLineDistance_inj, Hd by done. cbn [nlt]. apply Rltb_true_iff. lra.
  - exact Hc.
  - rewrite closestPoint_inj in Hc. apply inj_inj in Hc.
    by destruct (collideSegment_at_closest p a b (inj (r3 1.2 0 1.6)) 0.15 Hc) as [_ ->].
Qed.


